(** * ALX Polly: the poll store service ([src/services/pollService.ts])

    A shallow embedding of the service that owns the polls and the session
    record, and the properties of sign-in, poll creation and vote casting.

    Modelling decisions, all read off the source:

    - A JavaScript string is its sequence of UTF-16 code units; [.length]
      counts code units and [===] is equality of the sequences.
    - A [number] holding a vote count or a clock reading is an exact integer
      ([Z]); the counts of this program stay far below 2^53.
    - [localStorage] holds the two keys the service uses.  Every value is
      written by [JSON.stringify] and read back by [JSON.parse], which is the
      identity on the plain records of [types.ts]; the model keeps the records
      themselves, and an absent key is [None].
    - [throw new Error(msg)] is the result [Throw (mkError msg)]; an operation
      returns its result together with the storage it leaves behind.
    - [Date.now()] is an input: an operation receives the readings of the
      clock it makes as a function from the number of the call to the time.
    - The [await]ed timers only delay; one caller runs at a time, so nothing
      else touches the storage between the read and the write of an operation. *)

From Stdlib Require Import ZArith NArith String Ascii DecimalString Lia.
From Stdlib Require Import DecimalPos DecimalZ.
From stdpp Require Import base decidable option list.

Local Open Scope Z_scope.

(** ** JavaScript strings *)

Module JS.

Abbreviation jsstring := (list N).

(** A string literal of the source (its characters are ASCII). *)
Definition js (s : string) : jsstring :=
  N_of_ascii <$> list_ascii_of_string s.

(** The code units [String.prototype.trim] strips: the WhiteSpace and
    LineTerminator productions of ECMAScript. *)
Definition isWhiteSpace (c : N) : bool :=
  ((9 <=? c) && (c <=? 13)            (* TAB, LF, VT, FF, CR *)
   || (c =? 32)                        (* SPACE *)
   || (c =? 160)                       (* NO-BREAK SPACE *)
   || (c =? 5760)                      (* U+1680 *)
   || ((8192 <=? c) && (c <=? 8202))   (* U+2000 .. U+200A *)
   || (c =? 8232) || (c =? 8233)       (* U+2028, U+2029 *)
   || (c =? 8239)                      (* U+202F *)
   || (c =? 8287)                      (* U+205F *)
   || (c =? 12288)                     (* U+3000 *)
   || (c =? 65279))%N.                 (* U+FEFF *)

Fixpoint trimStart (s : jsstring) : jsstring :=
  match s with
  | c :: s' => if isWhiteSpace c then trimStart s' else s
  | [] => []
  end.

Definition trimEnd (s : jsstring) : jsstring :=
  reverse (trimStart (reverse s)).

Definition trim (s : jsstring) : jsstring := trimEnd (trimStart s).

(** A string that does not begin with white space. *)
Definition starts_clean (s : jsstring) : Prop :=
  match s with
  | c :: _ => isWhiteSpace c = false
  | [] => True
  end.

(** [String(n)] for an integer [n], as a template literal prints it. *)
Definition ofNumber (n : Z) : jsstring :=
  js (NilZero.string_of_int (Z.to_int n)).

(** Truthiness of a string: only the empty string is falsy. *)
Definition truthy (s : jsstring) : bool :=
  match s with [] => false | _ => true end.

End JS.

Import JS.

(** ** The records of [types.ts] *)

Module User.
Record t := mk { id : jsstring; username : jsstring }.
End User.

Module PollOption.
Record t := mk { id : jsstring; text : jsstring; votes : Z }.
End PollOption.

Module Poll.
Record t := mk {
  id : jsstring;
  question : jsstring;
  options : list PollOption.t;
  createdBy : jsstring;      (* userId *)
  votedBy : list jsstring    (* userIds who have voted *)
}.
End Poll.

(** ** Storage, errors and the monad of the service *)

(** [localStorage], restricted to the keys the service reads and writes. *)
Record Storage := mkStorage {
  polly_polls : option (list Poll.t);        (* POLLS_KEY *)
  polly_current_user : option User.t         (* CURRENT_USER_KEY *)
}.

(** [new Error(message)]. *)
Inductive Error := mkError (message : jsstring).

#[global] Instance Error_eq_dec : EqDecision Error.
Proof. solve_decision. Defined.

Inductive result (A : Type) :=
| Ok (a : A)
| Throw (e : Error).
Arguments Ok {A} a.
Arguments Throw {A} e.

(** The five errors of the service.  The source throws plain [Error] objects
    that differ in their message only; each is named here by the kind the
    error taxonomy of the specification gives it. *)
Definition ValidationError_username : Error :=
  mkError (js "Username must be at least 3 characters long.").
Definition ValidationError_poll : Error :=
  mkError (js "A poll requires a question and at least two non-empty options.").
Definition NotFoundError_poll : Error :=
  mkError (js "Poll not found. It may have been deleted.").
Definition ConflictError_voted : Error :=
  mkError (js "You have already voted on this poll.").
Definition ValidationError_option : Error :=
  mkError (js "Invalid option selected.").

(** A computation of the service: it runs on the storage and either returns
    or throws. *)
Definition M (A : Type) : Type := Storage → result A * Storage.

#[global] Instance M_ret : MRet M := λ A a ls, (Ok a, ls).

#[global] Instance M_bind : MBind M := λ A B f m ls,
  match m ls with
  | (Ok a, ls') => f a ls'
  | (Throw e, ls') => (Throw e, ls')
  end.

#[global] Instance M_throw : MThrow Error M := λ A e ls, (Throw e, ls).

Definition getItem_polls : M (option (list Poll.t)) :=
  λ ls, (Ok (polly_polls ls), ls).

Definition setItem_polls (polls : list Poll.t) : M unit :=
  λ ls, (Ok tt, mkStorage (Some polls) (polly_current_user ls)).

Definition getItem_current_user : M (option User.t) :=
  λ ls, (Ok (polly_current_user ls), ls).

Definition setItem_current_user (u : User.t) : M unit :=
  λ ls, (Ok tt, mkStorage (polly_polls ls) (Some u)).

Definition removeItem_current_user : M unit :=
  λ ls, (Ok tt, mkStorage (polly_polls ls) None).

(** The readings of [Date.now()] an operation makes, in the order it makes
    them. *)
Abbreviation clock := (nat → Z).

(** ** The mock database *)

Definition initialPolls : list Poll.t :=
  [ Poll.mk (js "poll-1") (js "What is your favorite frontend framework?")
      [ PollOption.mk (js "opt-1-1") (js "React") 15;
        PollOption.mk (js "opt-1-2") (js "Vue") 8;
        PollOption.mk (js "opt-1-3") (js "Svelte") 12;
        PollOption.mk (js "opt-1-4") (js "Angular") 3 ]
      (js "user-1") [];
    Poll.mk (js "poll-2") (js "Which ALX track is the most challenging?")
      [ PollOption.mk (js "opt-2-1") (js "Foundations") 5;
        PollOption.mk (js "opt-2-2") (js "Specialization (e.g., Frontend)") 20;
        PollOption.mk (js "opt-2-3") (js "Project Phase") 18 ]
      (js "user-2") [] ].

(** The self-invoking initializer at the top of the module. *)
Definition initialize : M unit :=
  stored ← getItem_polls;
  match stored with
  | None => setItem_polls initialPolls
  | Some _ => mret tt
  end.

(** ** Authentication flows *)

Definition signIn (uname : jsstring) (now : clock) : M User.t :=
  if negb (truthy uname) || (length (trim uname) <? 3)%nat then
    mthrow ValidationError_username
  else
    let newUser :=
      User.mk (js "user-" ++ ofNumber (now 0%nat)) (trim uname) in
    setItem_current_user newUser;;
    mret newUser.

Definition signOut : M unit := removeItem_current_user.

(** [getCurrentUser] is synchronous and cannot throw on a stored record. *)
Definition getCurrentUser (ls : Storage) : option User.t :=
  polly_current_user ls.

(** ** Poll management *)

Definition getPolls : M (list Poll.t) :=
  pollsJson ← getItem_polls;
  mret (match pollsJson with Some polls => polls | None => [] end).

(** The record [createPoll] builds: the clock is read once for the poll and
    once for every option. *)
Definition newPoll (question : jsstring) (options : list jsstring)
    (userId : jsstring) (now : clock) : Poll.t :=
  Poll.mk
    (js "poll-" ++ ofNumber (now 0%nat))
    question
    (imap (λ index opt,
       PollOption.mk
         (js "opt-" ++ ofNumber (now (S index)) ++ js "-"
            ++ ofNumber (Z.of_nat index))
         opt
         0) options)
    userId
    [].

Definition createPoll (question : jsstring) (options : list jsstring)
    (userId : jsstring) (now : clock) : M Poll.t :=
  if negb (truthy (trim question))
     || (length options <? 2)%nat
     || existsb (λ opt, negb (truthy (trim opt))) options
  then
    mthrow ValidationError_poll
  else
    let newPoll := newPoll question options userId now in
    polls ← getPolls;
    let updatedPolls := polls ++ [newPoll] in
    setItem_polls updatedPolls;;
    mret newPoll.

(** ** Voting *)

(** [option.votes += 1] on one option. *)
Definition addVote (o : PollOption.t) : PollOption.t :=
  PollOption.mk (PollOption.id o) (PollOption.text o) (PollOption.votes o + 1).

(** The two in-place updates of [castVote] on the poll it found:
    [poll.options[optionIndex].votes += 1] and [poll.votedBy.push(userId)]. *)
Definition recordVote (optionIndex : nat) (userId : jsstring)
    (poll : Poll.t) : Poll.t :=
  Poll.mk (Poll.id poll) (Poll.question poll)
    (alter addVote optionIndex (Poll.options poll))
    (Poll.createdBy poll)
    (Poll.votedBy poll ++ [userId]).

(** [list_find] gives the index [findIndex] returns together with the element
    at it ([polls[pollIndex]]); [None] is the [-1] of the source.  The object
    [poll] is the element of [polls] itself, so the source's in-place updates
    and the write [polls[pollIndex] = poll] amount to one replacement. *)
Definition castVote (pollId optionId userId : jsstring) : M Poll.t :=
  polls ← getPolls;
  match list_find (λ p, Poll.id p = pollId) polls with
  | None => mthrow NotFoundError_poll
  | Some (pollIndex, poll) =>
      if bool_decide (userId ∈ Poll.votedBy poll) then
        mthrow ConflictError_voted
      else
        match list_find (λ o, PollOption.id o = optionId) (Poll.options poll) with
        | None => mthrow ValidationError_option
        | Some (optionIndex, _) =>
            let poll' := recordVote optionIndex userId poll in
            setItem_polls (<[pollIndex := poll']> polls);;
            mret poll'
        end
  end.

(** [totalVotes] of [PollCard.tsx]:
    [poll.options.reduce((sum, option) => sum + option.votes, 0)]. *)
Definition totalVotes (poll : Poll.t) : Z :=
  fold_left (λ sum option, sum + PollOption.votes option) (Poll.options poll) 0.

(** [validOptions] of [CreatePollForm.tsx], computed by the form before it
    submits: [options.map(o => o.trim()).filter(o => o)]. *)
Definition validOptions (options : list jsstring) : list jsstring :=
  filter (λ o, truthy o = true) (trim <$> options).

(** ** Observation points *)

(** [found_at P l i x]: [l.findIndex(P)] is [i], and [l[i]] is [x]. *)
Definition found_at {A} (P : A → Prop) (l : list A) (i : nat) (x : A) : Prop :=
  l !! i = Some x ∧ P x ∧ ∀ j y, l !! j = Some y → (j < i)%nat → ¬ P y.

(** What writes to the storage: a load of the module, which runs the
    initializer, and the calls of the view layer. *)
Inductive Call :=
| LoadModule
| CallSignIn (uname : jsstring) (now : clock)
| CallSignOut
| CallCreatePoll (question : jsstring) (options : list jsstring)
    (userId : jsstring) (now : clock)
| CallCastVote (pollId optionId userId : jsstring).

(** The storage a completed call leaves, whether it returned or threw. *)
Definition perform (c : Call) (ls : Storage) : Storage :=
  match c with
  | LoadModule => snd (initialize ls)
  | CallSignIn uname now => snd (signIn uname now ls)
  | CallSignOut => snd (signOut ls)
  | CallCreatePoll question options userId now =>
      snd (createPoll question options userId now ls)
  | CallCastVote pollId optionId userId =>
      snd (castVote pollId optionId userId ls)
  end.

(** The storages at the observation points: after the seeding of a storage
    without the poll collection, and after every completed call or later
    load. *)
Inductive observable : Storage → Prop :=
| observable_seeded session :
    observable (snd (initialize (mkStorage None session)))
| observable_call c ls :
    observable ls → observable (perform c ls).

(** The votes the poll at position [i] of the collection was seeded with:
    the total of its options in [initialPolls], none for a later poll. *)
Definition seededVotes (i : nat) : Z :=
  match initialPolls !! i with
  | Some poll => totalVotes poll
  | None => 0
  end.

(** What every observation point satisfies: the collection is stored, the
    two seeded polls are in it, and each poll's votes are the votes it was
    seeded with plus one for every user in its [votedBy]. *)
Definition votes_accounted (ls : Storage) : Prop :=
  ∃ polls,
    polly_polls ls = Some polls
    ∧ (2 ≤ length polls)%nat
    ∧ ∀ i poll, polls !! i = Some poll →
        totalVotes poll
        = Z.of_nat (length (Poll.votedBy poll)) + seededVotes i.

(** The freshly seeded storage of a first load, a sample clock, and the
    storage after user-42 voted for Vue. *)
Definition seeded : Storage := snd (initialize (mkStorage None None)).

Definition noon : clock := λ _, 1700000000000.

Definition voted : Storage :=
  snd (castVote (js "poll-1") (js "opt-1-2") (js "user-42") seeded).

(** ** The view layer

    The handlers of the components that call the service.  A component's
    state is the record of its [useState] cells; a handler is run to
    completion and leaves the last value written to each cell. *)

Definition message (e : Error) : jsstring :=
  match e with mkError m => m end.

(** [err.message || fallback]. *)
Definition messageOr (e : Error) (fallback : jsstring) : jsstring :=
  if truthy (message e) then message e else fallback.

(** [array.filter((x, i) => f(x, i))], counting the indices from [i]. *)
Fixpoint filter_with_index {A} (f : A → nat → bool) (l : list A) (i : nat)
    : list A :=
  match l with
  | [] => []
  | x :: l' =>
      if f x i then x :: filter_with_index f l' (S i)
      else filter_with_index f l' (S i)
  end.

Module AppView.
Inductive t := Dashboard | Login | About.
End AppView.

(** [App.tsx]: the authentication state at the root. *)
Module App.

Record state := mk {
  user : option User.t;
  isLoading : bool;
  view : AppView.t
}.

Definition initial : state := mk None true AppView.Dashboard.

(** The effect run on mount. *)
Definition checkCurrentUser (a : state) (ls : Storage) : state :=
  mk (getCurrentUser ls) false (view a).

Definition handleSignIn (uname : jsstring) (now : clock)
    (w : state * Storage) : result unit * (state * Storage) :=
  match signIn uname now (snd w) with
  | (Ok signedInUser, ls') =>
      (Ok tt, (mk (Some signedInUser) (isLoading (fst w)) (view (fst w)), ls'))
  | (Throw e, ls') => (Throw e, (fst w, ls'))
  end.

Definition handleSignOut (w : state * Storage)
    : result unit * (state * Storage) :=
  match signOut (snd w) with
  | (Ok _, ls') => (Ok tt, (mk None (isLoading (fst w)) (view (fst w)), ls'))
  | (Throw e, ls') => (Throw e, (fst w, ls'))
  end.

End App.

(** [Login.tsx]; [signIn] of the context is [App.handleSignIn] and
    [onLoginSuccess] sets the view to the dashboard. *)
Module Login.

Record state := mk {
  username : jsstring;
  isLoading : bool;
  error : option jsstring
}.

Definition handleLogin (now : clock) (s : state) (w : App.state * Storage)
    : state * (App.state * Storage) :=
  match App.handleSignIn (username s) now w with
  | (Ok _, (a, ls')) =>
      (mk (username s) false None,
       (App.mk (App.user a) (App.isLoading a) AppView.Dashboard, ls'))
  | (Throw err, w') =>
      (mk (username s) false
         (Some (messageOr err (js "An error occurred during login."))),
       w')
  end.

End Login.

(** [Dashboard.tsx]; [user] is the user of the authentication context. *)
Module Dashboard.

Record state := mk {
  polls : list Poll.t;
  isLoading : bool;
  error : option jsstring;
  isCreatingPoll : bool
}.

Definition initial : state := mk [] true None false.

Definition fetchPolls (d : state) (ls : Storage) : state * Storage :=
  match getPolls ls with
  | (Ok fetchedPolls, ls') =>
      (mk (reverse fetchedPolls) false None (isCreatingPoll d), ls')
  | (Throw err, ls') =>
      (mk (polls d) false
         (Some (messageOr err (js "Failed to fetch polls.")))
         (isCreatingPoll d),
       ls')
  end.

Definition handleVote (user : option User.t) (pollId optionId : jsstring)
    (w : state * Storage) : result unit * (state * Storage) :=
  match user with
  | None => (Throw (mkError (js "You must be logged in to vote.")), w)
  | Some u =>
      match castVote pollId optionId (User.id u) (snd w) with
      | (Ok _, ls') => (Ok tt, fetchPolls (fst w) ls')
      | (Throw e, ls') => (Throw e, (fst w, ls'))
      end
  end.

Definition handleCreatePoll (user : option User.t) (now : clock)
    (question : jsstring) (options : list jsstring)
    (w : state * Storage) : result unit * (state * Storage) :=
  match user with
  | None =>
      (Throw (mkError (js "You must be logged in to create a poll.")), w)
  | Some u =>
      match createPoll question options (User.id u) now (snd w) with
      | (Ok _, ls') =>
          let d := fst w in
          (Ok tt, fetchPolls (mk (polls d) (isLoading d) (error d) false) ls')
      | (Throw e, ls') => (Throw e, (fst w, ls'))
      end
  end.

End Dashboard.

(** [PollCard.tsx]. *)
Module PollCard.

Record state := mk {
  selectedOption : option jsstring;
  isVoting : bool;
  error : option jsstring
}.

Definition initial : state := mk None false None.

Definition userHasVoted (user : option User.t) (poll : Poll.t) : bool :=
  match user with
  | Some u => bool_decide (User.id u ∈ Poll.votedBy poll)
  | None => false
  end.

(** The click handler of an option:
    [!userHasVoted && setSelectedOption(option.id)]. *)
Definition selectOption (user : option User.t) (poll : Poll.t)
    (option : PollOption.t) (s : state) : state :=
  if userHasVoted user poll then s
  else mk (Some (PollOption.id option)) (isVoting s) (error s).

(** [handleVote]; [onVote] is the handler the parent passed. *)
Definition handleVote {W} (user : option User.t) (poll : Poll.t)
    (onVote : jsstring → jsstring → W → result unit * W)
    (s : state) (w : W) : state * W :=
  match selectedOption s, user with
  | Some selected, Some _ =>
      if truthy selected then
        match onVote (Poll.id poll) selected w with
        | (Ok _, w') => (mk (selectedOption s) false None, w')
        | (Throw err, w') =>
            (mk (selectedOption s) false
               (Some (messageOr err (js "An unknown error occurred."))),
             w')
        end
      else (s, w)
  | _, _ => (s, w)
  end.

End PollCard.

(** [CreatePollForm.tsx]. *)
Module CreatePollForm.

Record state := mk {
  question : jsstring;
  options : list jsstring;
  isLoading : bool;
  error : option jsstring
}.

Definition initial : state := mk [] [[]; []] false None.

Definition setOptions (newOptions : list jsstring) (s : state) : state :=
  mk (question s) newOptions (isLoading s) (error s).

Definition addOption (s : state) : state :=
  if (length (options s) <? 10)%nat then setOptions (options s ++ [[]]) s
  else s.

Definition removeOption (index : nat) (s : state) : state :=
  if (2 <? length (options s))%nat then
    setOptions
      (filter_with_index (λ _ i, negb (i =? index)%nat) (options s) 0) s
  else s.

(** What the rendered form can do to its state.  An option input exists for
    every index below [options.length], and [handleOptionChange] is called
    with the index of an input: [newOptions[index] = value]. *)
Inductive step : state → state → Prop :=
| step_setQuestion s value :
    step s (mk value (options s) (isLoading s) (error s))
| step_handleOptionChange s index value :
    (index < length (options s))%nat →
    step s (setOptions (<[index := value]> (options s)) s)
| step_addOption s : step s (addOption s)
| step_removeOption s index : step s (removeOption index s).

Inductive reachable : state → Prop :=
| reachable_initial : reachable initial
| reachable_step s s' : reachable s → step s s' → reachable s'.

(** [handleSubmit]; [onSubmit] is the handler the parent passed. *)
Definition handleSubmit {W}
    (onSubmit : jsstring → list jsstring → W → result unit * W)
    (s : state) (w : W) : state * W :=
  let validOptions := validOptions (options s) in
  match onSubmit (question s) validOptions w with
  | (Ok _, w') => (mk (question s) (options s) false None, w')
  | (Throw err, w') =>
      (mk (question s) (options s) false
         (Some (messageOr err (js "Failed to create poll."))),
       w')
  end.

End CreatePollForm.

(** ** Shape of the stored polls *)

(** What every stored poll looks like at an observation point. *)
Definition well_formed (poll : Poll.t) : Prop :=
  (2 ≤ length (Poll.options poll))%nat
  ∧ NoDup (PollOption.id <$> Poll.options poll)
  ∧ Forall (λ o, 0 ≤ PollOption.votes o) (Poll.options poll)
  ∧ NoDup (Poll.votedBy poll).

(** [later] is [earlier] after zero or more votes: the same poll with the
    same options, no vote count lower, and the earlier voters first. *)
Definition grown_from (earlier later : Poll.t) : Prop :=
  Poll.id later = Poll.id earlier
  ∧ Poll.question later = Poll.question earlier
  ∧ Poll.createdBy later = Poll.createdBy earlier
  ∧ PollOption.id <$> Poll.options later = PollOption.id <$> Poll.options earlier
  ∧ PollOption.text <$> Poll.options later
    = PollOption.text <$> Poll.options earlier
  ∧ Forall2 (λ o o', PollOption.votes o ≤ PollOption.votes o')
      (Poll.options earlier) (Poll.options later)
  ∧ Poll.votedBy earlier `prefix_of` Poll.votedBy later.

(** The dashboard shows what is stored: its list is the stored collection,
    newest first, and it is neither loading nor showing an error. *)
Definition shows_storage (d : Dashboard.state) (ls : Storage) : Prop :=
  getPolls ls = (Ok (reverse (Dashboard.polls d)), ls)
  ∧ Dashboard.isLoading d = false
  ∧ Dashboard.error d = None.

(** The storage after a sequence of completed calls. *)
Definition perform_all (calls : list Call) (ls : Storage) : Storage :=
  foldl (λ ls c, perform c ls) ls calls.

(** The first seeded poll, before and after user-42 voted for Vue. *)
Definition seededPoll1 : Poll.t :=
  Poll.mk (js "poll-1") (js "What is your favorite frontend framework?")
    [ PollOption.mk (js "opt-1-1") (js "React") 15;
      PollOption.mk (js "opt-1-2") (js "Vue") 8;
      PollOption.mk (js "opt-1-3") (js "Svelte") 12;
      PollOption.mk (js "opt-1-4") (js "Angular") 3 ]
    (js "user-1") [].

Definition votedPoll1 : Poll.t := recordVote 1 (js "user-42") seededPoll1.

(** A sample user. *)
Definition user42 : User.t := User.mk (js "user-42") (js "ada").


(** ** Running the storage primitives *)

Ltac run :=
  unfold mbind, M_bind, mret, M_ret, mthrow, M_throw,
    getItem_polls, setItem_polls, getItem_current_user,
    setItem_current_user, removeItem_current_user; simpl.

Lemma getPolls_run ls :
  getPolls ls =
  (Ok (match polly_polls ls with Some polls => polls | None => [] end), ls).
Proof. reflexivity. Qed.

Lemma getPolls_inv ls polls ls' :
  getPolls ls = (Ok polls, ls') →
  ls' = ls ∧ polls = match polly_polls ls with Some ps => ps | None => [] end.
Proof. rewrite getPolls_run. intros [= <- <-]. done. Qed.

Lemma truthy_false s : truthy s = false ↔ s = [].
Proof. destruct s; simpl; split; congruence. Qed.

Lemma truthy_true s : truthy s = true ↔ s ≠ [].
Proof. destruct s; simpl; split; congruence. Qed.

Lemma errors_distinct :
  NoDup [ValidationError_username; ValidationError_poll; NotFoundError_poll;
         ConflictError_voted; ValidationError_option].
Proof. apply (bool_decide_unpack _). vm_compute. reflexivity. Qed.

(** ** Sign-in *)

Lemma trim_nil : trim [] = [].
Proof. reflexivity. Qed.

Lemma signIn_guard uname :
  negb (truthy uname) || (length (trim uname) <? 3)%nat = true
  ↔ (length (trim uname) < 3)%nat.
Proof.
  rewrite orb_true_iff, Nat.ltb_lt, negb_true_iff, truthy_false.
  split; [intros [-> | H]; [rewrite trim_nil; simpl; lia | done] | auto].
Qed.

(** C7. A username whose trimmed length is below 3 makes [signIn] throw its
    validation error and leaves the storage, hence the session record that
    [getCurrentUser] reads, as it was. *)
Theorem signIn_short_username uname now ls :
  (length (trim uname) < 3)%nat →
  signIn uname now ls = (Throw ValidationError_username, ls)
  ∧ getCurrentUser (snd (signIn uname now ls)) = getCurrentUser ls.
Proof.
  intros Hshort%signIn_guard. unfold signIn. rewrite Hshort. done.
Qed.

Lemma signIn_short_username_witness :
  (length (trim (js " al  ")) < 3)%nat
  ∧ signIn (js " al  ") noon seeded = (Throw ValidationError_username, seeded)
  ∧ getCurrentUser (snd (signIn (js " al  ") noon seeded))
    = getCurrentUser seeded.
Proof.
  split; [vm_compute; lia | apply signIn_short_username; vm_compute; lia].
Defined.

(** C8. A username whose trimmed length is at least 3 makes [signIn] return a
    user carrying the trimmed username; that user replaces the session record
    whatever it held, and [getCurrentUser] returns it afterwards. *)
Theorem signIn_valid_username uname now ls :
  (3 ≤ length (trim uname))%nat →
  ∃ u,
    signIn uname now ls = (Ok u, mkStorage (polly_polls ls) (Some u))
    ∧ User.username u = trim uname
    ∧ getCurrentUser (snd (signIn uname now ls)) = Some u.
Proof.
  intros Hlong. unfold signIn.
  destruct (negb (truthy uname) || (length (trim uname) <? 3)%nat) eqn:Hguard.
  - apply signIn_guard in Hguard. lia.
  - eexists. run. done.
Qed.

Lemma signIn_valid_username_witness :
  (3 ≤ length (trim (js "  alice ")))%nat
  ∧ ∃ u,
      signIn (js "  alice ") noon seeded
      = (Ok u, mkStorage (polly_polls seeded) (Some u))
      ∧ User.username u = trim (js "  alice ")
      ∧ getCurrentUser (snd (signIn (js "  alice ") noon seeded)) = Some u.
Proof.
  split; [vm_compute; lia | apply signIn_valid_username; vm_compute; lia].
Defined.

(** ** Listing *)

(** C10. Without the poll-collection key in the storage [getPolls] returns
    the empty sequence instead of throwing. *)
Theorem getPolls_absent_key ls :
  polly_polls ls = None → getPolls ls = (Ok [], ls).
Proof. intros Habsent. rewrite getPolls_run, Habsent. done. Qed.

Lemma getPolls_absent_key_witness :
  polly_polls (mkStorage None None) = None
  ∧ getPolls (mkStorage None None) = (Ok [], mkStorage None None).
Proof. split; [reflexivity | apply getPolls_absent_key; reflexivity]. Defined.

(** ** Trimming *)

Lemma trimStart_starts_clean s : starts_clean (trimStart s).
Proof.
  induction s as [|c s IH]; simpl; [done|].
  destruct (isWhiteSpace c) eqn:Hc; simpl; done.
Qed.

Lemma trimStart_clean s : starts_clean s → trimStart s = s.
Proof. destruct s as [|c s]; simpl; [done|]. by intros ->. Qed.

Lemma trimStart_snoc s c :
  isWhiteSpace c = false → trimStart (s ++ [c]) = trimStart s ++ [c].
Proof.
  intros Hc. induction s as [|a s IH]; simpl.
  - by rewrite Hc.
  - by destruct (isWhiteSpace a).
Qed.

Lemma trimEnd_starts_clean s : starts_clean s → starts_clean (trimEnd s).
Proof.
  destruct s as [|c s]; [done|]. simpl. intros Hc. unfold trimEnd.
  rewrite reverse_cons, trimStart_snoc, reverse_snoc by done. done.
Qed.

Lemma trim_idempotent s : trim (trim s) = trim s.
Proof.
  unfold trim at 1.
  rewrite trimStart_clean
    by apply trimEnd_starts_clean, trimStart_starts_clean.
  unfold trim, trimEnd at 1 2.
  rewrite reverse_involutive, trimStart_clean by apply trimStart_starts_clean.
  done.
Qed.

Lemma trimmed_fmap (l : list jsstring) :
  Forall (λ o, trim o = o) l ↔ l = trim <$> l.
Proof.
  induction l as [|o rest IH]; [by split|].
  rewrite Forall_cons, fmap_cons, IH. split.
  - intros [Ho <-]. by rewrite Ho.
  - intros [= Ho Hrest]. done.
Qed.

(** ** Poll creation *)

Lemma existsb_blank options :
  existsb (λ opt, negb (truthy (trim opt))) options = true
  ↔ Exists (λ o, trim o = []) options.
Proof.
  induction options as [|o options IH]; simpl.
  - rewrite Exists_nil. split; [discriminate | done].
  - rewrite Exists_cons, orb_true_iff, negb_true_iff, truthy_false, IH. done.
Qed.

Lemma createPoll_guard question options :
  negb (truthy (trim question)) || (length options <? 2)%nat
    || existsb (λ opt, negb (truthy (trim opt))) options = false
  ↔ trim question ≠ [] ∧ (2 ≤ length options)%nat
    ∧ Forall (λ o, trim o ≠ []) options.
Proof.
  rewrite !orb_false_iff, negb_false_iff, truthy_true, Nat.ltb_ge.
  rewrite <- not_true_iff_false, existsb_blank, <- Forall_Exists_neg.
  tauto.
Qed.

Lemma createPoll_accepts question options userId now ls :
  trim question ≠ [] → (2 ≤ length options)%nat →
  Forall (λ o, trim o ≠ []) options →
  createPoll question options userId now ls =
  (Ok (newPoll question options userId now),
   mkStorage
     (Some (match polly_polls ls with Some polls => polls | None => [] end
            ++ [newPoll question options userId now]))
     (polly_current_user ls)).
Proof.
  intros Hq Hlen Hopts. unfold createPoll.
  rewrite (proj2 (createPoll_guard question options)) by done.
  reflexivity.
Qed.

Lemma createPoll_rejects question options userId now ls :
  trim question = [] ∨ (length options < 2)%nat
    ∨ Exists (λ o, trim o = []) options →
  createPoll question options userId now ls = (Throw ValidationError_poll, ls).
Proof.
  intros Hbad. unfold createPoll.
  destruct (_ || _ || _) eqn:Hguard; [done|].
  apply createPoll_guard in Hguard as (Hq & Hlen & Hopts).
  destruct Hbad as [Hbad | [Hbad | Hbad]]; [done | lia |].
  by apply Forall_Exists_neg in Hopts.
Qed.

Lemma newPoll_texts question options userId now :
  PollOption.text <$> Poll.options (newPoll question options userId now)
  = options.
Proof.
  unfold newPoll. cbn [Poll.options]. rewrite fmap_imap.
  rewrite (imap_ext _ (const (λ o, o))) by done.
  rewrite imap_const. apply list_fmap_id.
Qed.

Lemma newPoll_votes question options userId now :
  Forall (λ o, PollOption.votes o = 0)
    (Poll.options (newPoll question options userId now)).
Proof.
  apply Forall_forall. intros o (i & opt & -> & _)%elem_of_lookup_imap. done.
Qed.

Lemma validOptions_nonblank options :
  Forall (λ o, trim o ≠ []) (validOptions options).
Proof.
  apply Forall_forall. intros o. unfold validOptions.
  rewrite list_elem_of_filter, list_elem_of_fmap, truthy_true.
  intros (Hne & raw & -> & _). by rewrite trim_idempotent.
Qed.

(** C9, as the code has it. An input that the guard of [createPoll] accepts
    (a question that is non-empty after trimming, at least two options, every
    option non-empty after trimming) makes [createPoll] return a poll whose
    options all have zero votes and whose [votedBy] is empty, and append it
    to the stored collection: [getPolls] then returns the polls it returned
    before, in the same order, followed by the new poll. *)
Theorem createPoll_appends question options userId now ls polls :
  getPolls ls = (Ok polls, ls) →
  trim question ≠ [] → (2 ≤ length options)%nat →
  Forall (λ o, trim o ≠ []) options →
  ∃ poll ls',
    createPoll question options userId now ls = (Ok poll, ls')
    ∧ Forall (λ o, PollOption.votes o = 0) (Poll.options poll)
    ∧ Poll.votedBy poll = []
    ∧ getPolls ls' = (Ok (polls ++ [poll]), ls').
Proof.
  intros [_ ->]%getPolls_inv Hq Hlen Hopts.
  eexists _, _. split; [by apply createPoll_accepts|].
  split; [apply newPoll_votes|]. done.
Qed.

Lemma createPoll_appends_witness :
  getPolls seeded = (Ok initialPolls, seeded)
  ∧ trim (js "Lunch?") ≠ []
  ∧ (2 ≤ length [js "Pizza"; js "Tacos"])%nat
  ∧ Forall (λ o, trim o ≠ []) [js "Pizza"; js "Tacos"]
  ∧ ∃ poll ls',
      createPoll (js "Lunch?") [js "Pizza"; js "Tacos"] (js "user-7") noon
        seeded = (Ok poll, ls')
      ∧ Forall (λ o, PollOption.votes o = 0) (Poll.options poll)
      ∧ Poll.votedBy poll = []
      ∧ getPolls ls' = (Ok (initialPolls ++ [poll]), ls').
Proof.
  assert (H1 : getPolls seeded = (Ok initialPolls, seeded)) by reflexivity.
  assert (H2 : trim (js "Lunch?") ≠ []) by (vm_compute; discriminate).
  assert (H3 : (2 ≤ length [js "Pizza"; js "Tacos"])%nat) by (simpl; lia).
  assert (H4 : Forall (λ o, trim o ≠ []) [js "Pizza"; js "Tacos"])
    by (repeat constructor; vm_compute; discriminate).
  repeat (split; [assumption|]).
  exact (createPoll_appends _ _ (js "user-7") noon _ _ H1 H2 H3 H4).
Defined.

(** C9 fails as stated: the options of
    [createPoll('Lunch?', ['Pizza', '', 'Tacos', '  '], 'user-7')] number two
    after trimming and discarding and its question is not empty, yet no poll
    is returned and none is appended: [getPolls] returns afterwards what it
    returned before. *)
Lemma createPoll_blank_option_appends_nothing :
  trim (js "Lunch?") ≠ []
  ∧ (2 ≤ length (validOptions [js "Pizza"; js ""; js "Tacos"; js "  "]))%nat
  ∧ getPolls seeded = (Ok initialPolls, seeded)
  ∧ ∃ e ls',
      createPoll (js "Lunch?") [js "Pizza"; js ""; js "Tacos"; js "  "]
        (js "user-7") noon seeded = (Throw e, ls')
      ∧ getPolls ls' = (Ok initialPolls, ls').
Proof.
  split; [vm_compute; discriminate|]. split; [vm_compute; lia|].
  split; [reflexivity|]. eexists _, _.
  split; [vm_compute; reflexivity | reflexivity].
Qed.

(** C6, as the code has it. A valid input makes [createPoll] return a poll
    whose options carry the input option strings unchanged, in order: each
    text is non-empty after trimming but keeps the white space around it.
    The texts are the trimmed forms exactly when the caller passed trimmed
    strings. *)
Theorem createPoll_option_texts question options userId now ls :
  trim question ≠ [] → (2 ≤ length options)%nat →
  Forall (λ o, trim o ≠ []) options →
  ∃ poll ls',
    createPoll question options userId now ls = (Ok poll, ls')
    ∧ PollOption.text <$> Poll.options poll = options
    ∧ Forall (λ o, trim (PollOption.text o) ≠ []) (Poll.options poll)
    ∧ (Forall (λ o, trim o = o) options ↔
       PollOption.text <$> Poll.options poll = trim <$> options).
Proof.
  intros Hq Hlen Hopts.
  eexists _, _. split; [by apply createPoll_accepts|].
  pose proof (newPoll_texts question options userId now) as Htexts.
  split; [done|]. split.
  - rewrite <- Htexts, Forall_fmap in Hopts. exact Hopts.
  - rewrite Htexts. apply trimmed_fmap.
Qed.

Lemma createPoll_option_texts_witness :
  trim (js "Lunch?") ≠ []
  ∧ (2 ≤ length [js " Pizza"; js "Tacos"])%nat
  ∧ Forall (λ o, trim o ≠ []) [js " Pizza"; js "Tacos"]
  ∧ ∃ poll ls',
      createPoll (js "Lunch?") [js " Pizza"; js "Tacos"] (js "user-7") noon
        seeded = (Ok poll, ls')
      ∧ PollOption.text <$> Poll.options poll = [js " Pizza"; js "Tacos"]
      ∧ Forall (λ o, trim (PollOption.text o) ≠ []) (Poll.options poll)
      ∧ (Forall (λ o, trim o = o) [js " Pizza"; js "Tacos"] ↔
         PollOption.text <$> Poll.options poll
         = trim <$> [js " Pizza"; js "Tacos"]).
Proof.
  assert (H2 : trim (js "Lunch?") ≠ []) by (vm_compute; discriminate).
  assert (H3 : (2 ≤ length [js " Pizza"; js "Tacos"])%nat) by (simpl; lia).
  assert (H4 : Forall (λ o, trim o ≠ []) [js " Pizza"; js "Tacos"])
    by (repeat constructor; vm_compute; discriminate).
  repeat (split; [assumption|]).
  exact (createPoll_option_texts _ _ (js "user-7") noon seeded H2 H3 H4).
Defined.

(** C6 fails as stated: on the valid input
    [createPoll('Lunch?', [' Pizza', 'Tacos'], 'user-7')] the first option of
    the returned poll has the text [' Pizza'], not its trimmed form. *)
Lemma createPoll_keeps_whitespace :
  trim (js "Lunch?") ≠ []
  ∧ Forall (λ o, trim o ≠ []) [js " Pizza"; js "Tacos"]
  ∧ ∃ poll,
      fst (createPoll (js "Lunch?") [js " Pizza"; js "Tacos"] (js "user-7")
             noon seeded) = Ok poll
      ∧ PollOption.text <$> Poll.options poll = [js " Pizza"; js "Tacos"]
      ∧ PollOption.text <$> Poll.options poll
        ≠ trim <$> [js " Pizza"; js "Tacos"].
Proof.
  split; [vm_compute; discriminate|].
  split; [repeat constructor; vm_compute; discriminate|].
  eexists. split; [vm_compute; reflexivity|].
  split; [reflexivity | vm_compute; discriminate].
Qed.

(** C2 fails as stated: the options of
    [createPoll('Lunch?', ['Pizza', '', 'Tacos', '  '], 'user-7')] number two
    after trimming and discarding, yet the call throws the validation error
    and stores nothing; so does a call with two good options and a blank
    question. *)
Lemma createPoll_rejects_blank_options :
  validOptions [js "Pizza"; js ""; js "Tacos"; js "  "]
    = [js "Pizza"; js "Tacos"]
  ∧ createPoll (js "Lunch?") [js "Pizza"; js ""; js "Tacos"; js "  "]
      (js "user-7") noon seeded = (Throw ValidationError_poll, seeded)
  ∧ createPoll (js " ") [js "Pizza"; js "Tacos"] (js "user-7") noon seeded
    = (Throw ValidationError_poll, seeded).
Proof. repeat split; vm_compute; reflexivity. Qed.

(** C2, as the code has it. [createPoll] validates the options as they are
    given: one empty or white-space-only option makes it throw the validation
    error and leave the storage alone.  Discarding is the caller's part
    ([validOptions] of the form): for a question that is non-empty after
    trimming and options that number at least 2 after trimming each and
    discarding the empty ones, [createPoll] on those remaining options
    returns a poll with exactly them as options, all at zero votes.  So
    ['Pizza', '', 'Tacos', '  '] gives, through [validOptions], a poll with
    the two options Pizza and Tacos at zero votes. *)
Theorem createPoll_validates_given_options question options userId now ls :
  (Exists (λ o, trim o = []) options →
   createPoll question options userId now ls = (Throw ValidationError_poll, ls))
  ∧ (trim question ≠ [] → (2 ≤ length (validOptions options))%nat →
     ∃ poll ls',
       createPoll question (validOptions options) userId now ls = (Ok poll, ls')
       ∧ PollOption.text <$> Poll.options poll = validOptions options
       ∧ Forall (λ o, PollOption.votes o = 0) (Poll.options poll))
  ∧ (∃ poll ls' id1 id2,
       createPoll (js "Lunch?")
         (validOptions [js "Pizza"; js ""; js "Tacos"; js "  "])
         (js "user-7") now ls = (Ok poll, ls')
       ∧ Poll.options poll
         = [PollOption.mk id1 (js "Pizza") 0; PollOption.mk id2 (js "Tacos") 0]).
Proof.
  split; [|split].
  - intros Hblank. apply createPoll_rejects. auto.
  - intros Hq Hlen. eexists _, _.
    split; [apply createPoll_accepts, validOptions_nonblank; done|].
    split; [apply newPoll_texts | apply newPoll_votes].
  - eexists _, _, _, _. split.
    + apply createPoll_accepts;
        [vm_compute; discriminate | vm_compute; lia | apply validOptions_nonblank].
    + reflexivity.
Qed.

Lemma createPoll_validates_given_options_witness :
  Exists (λ o, trim o = []) [js "Pizza"; js ""; js "Tacos"; js "  "]
  ∧ createPoll (js "Lunch?") [js "Pizza"; js ""; js "Tacos"; js "  "]
      (js "user-7") noon seeded = (Throw ValidationError_poll, seeded)
  ∧ trim (js "Lunch?") ≠ []
  ∧ (2 ≤ length (validOptions [js "Pizza"; js ""; js "Tacos"; js "  "]))%nat
  ∧ ∃ poll ls',
      createPoll (js "Lunch?")
        (validOptions [js "Pizza"; js ""; js "Tacos"; js "  "])
        (js "user-7") noon seeded = (Ok poll, ls')
      ∧ PollOption.text <$> Poll.options poll
        = validOptions [js "Pizza"; js ""; js "Tacos"; js "  "]
      ∧ Forall (λ o, PollOption.votes o = 0) (Poll.options poll).
Proof.
  assert (H1 : Exists (λ o, trim o = [])
                 [js "Pizza"; js ""; js "Tacos"; js "  "])
    by (apply Exists_cons_tl, Exists_cons_hd; reflexivity).
  assert (H2 : trim (js "Lunch?") ≠ []) by (vm_compute; discriminate).
  assert (H3 : (2 ≤ length (validOptions
                   [js "Pizza"; js ""; js "Tacos"; js "  "]))%nat)
    by (vm_compute; lia).
  pose proof (createPoll_validates_given_options (js "Lunch?")
    [js "Pizza"; js ""; js "Tacos"; js "  "] (js "user-7") noon seeded)
    as (Hreject & Haccept & _).
  split; [exact H1|]. split; [exact (Hreject H1)|].
  split; [exact H2|]. split; [exact H3|]. exact (Haccept H2 H3).
Defined.

(** ** Vote casting *)

Lemma found_at_list_find {A} (P : A → Prop) `{∀ x, Decision (P x)} l i x :
  list_find P l = Some (i, x) ↔ found_at P l i x.
Proof. apply list_find_Some. Qed.

Lemma found_at_find {A} (P : A → Prop) `{∀ x, Decision (P x)} l i x :
  found_at P l i x → list_find P l = Some (i, x).
Proof. apply found_at_list_find. Qed.

Ltac searched H :=
  let H' := fresh in
  pose proof (found_at_find _ _ _ _ H) as H'; clear H; rename H' into H.

Lemma list_find_None_ids {A} (f : A → jsstring) (l : list A) name :
  list_find (λ x, f x = name) l = None ↔ name ∉ f <$> l.
Proof.
  rewrite list_find_None, Forall_forall, list_elem_of_fmap. split.
  - intros Hnone (x & -> & Hx). by apply (Hnone x).
  - intros Hnot x Hx Hname. apply Hnot. eauto.
Qed.

Lemma alter_addVote (l : list PollOption.t) j o :
  l !! j = Some o → alter addVote j l = <[j := addVote o]> l.
Proof.
  intros Hj. apply list_eq. intros k. destruct (decide (k = j)) as [->|Hne].
  - rewrite list_lookup_alter_eq, Hj, list_lookup_insert_eq; [done|].
    by eapply lookup_lt_Some.
  - by rewrite list_lookup_alter_ne, list_lookup_insert_ne.
Qed.

(** The four ways [castVote] runs, by what its two searches find. *)
Lemma castVote_not_found pollId optionId userId ls polls :
  getPolls ls = (Ok polls, ls) →
  pollId ∉ Poll.id <$> polls →
  castVote pollId optionId userId ls = (Throw NotFoundError_poll, ls).
Proof.
  intros [_ ->]%getPolls_inv Hnone%list_find_None_ids.
  unfold castVote. run. by rewrite Hnone.
Qed.

Lemma castVote_conflict pollId optionId userId ls polls i poll :
  getPolls ls = (Ok polls, ls) →
  found_at (λ p, Poll.id p = pollId) polls i poll →
  userId ∈ Poll.votedBy poll →
  castVote pollId optionId userId ls = (Throw ConflictError_voted, ls).
Proof.
  intros [_ ->]%getPolls_inv Hfound Hvoted. searched Hfound.
  unfold castVote. run. rewrite Hfound. by rewrite bool_decide_eq_true_2.
Qed.

Lemma castVote_invalid_option pollId optionId userId ls polls i poll :
  getPolls ls = (Ok polls, ls) →
  found_at (λ p, Poll.id p = pollId) polls i poll →
  userId ∉ Poll.votedBy poll →
  optionId ∉ PollOption.id <$> Poll.options poll →
  castVote pollId optionId userId ls = (Throw ValidationError_option, ls).
Proof.
  intros [_ ->]%getPolls_inv Hfound Hnew Hnone%list_find_None_ids.
  searched Hfound.
  unfold castVote. run. rewrite Hfound, bool_decide_eq_false_2 by done.
  by rewrite Hnone.
Qed.

Lemma castVote_commit pollId optionId userId ls polls i poll j o :
  getPolls ls = (Ok polls, ls) →
  found_at (λ p, Poll.id p = pollId) polls i poll →
  userId ∉ Poll.votedBy poll →
  found_at (λ o, PollOption.id o = optionId) (Poll.options poll) j o →
  castVote pollId optionId userId ls =
  (Ok (recordVote j userId poll),
   mkStorage (Some (<[i := recordVote j userId poll]> polls))
     (polly_current_user ls)).
Proof.
  intros [_ ->]%getPolls_inv Hfound Hnew Hopt.
  searched Hfound. searched Hopt.
  unfold castVote. run. rewrite Hfound, bool_decide_eq_false_2 by done.
  by rewrite Hopt.
Qed.

Lemma named_option_found optionId (l : list PollOption.t) :
  optionId ∈ PollOption.id <$> l →
  ∃ j o, found_at (λ o, PollOption.id o = optionId) l j o.
Proof.
  intros Hin.
  destruct (list_find (λ o, PollOption.id o = optionId) l) as [[j o]|] eqn:Hf.
  - exists j, o. exact (proj1 (list_find_Some _ _ _ _) Hf).
  - by apply list_find_None_ids in Hf.
Qed.

Lemma named_poll_found pollId (polls : list Poll.t) :
  pollId ∈ Poll.id <$> polls →
  ∃ i poll, found_at (λ p, Poll.id p = pollId) polls i poll.
Proof.
  intros Hin.
  destruct (list_find (λ p, Poll.id p = pollId) polls) as [[i p]|] eqn:Hf.
  - exists i, p. exact (proj1 (list_find_Some _ _ _ _) Hf).
  - by apply list_find_None_ids in Hf.
Qed.

Lemma found_at_named {A} (f : A → jsstring) l name i x :
  found_at (λ y, f y = name) l i x → name ∈ f <$> l.
Proof.
  intros (Hi & <- & _). apply list_elem_of_fmap. exists x.
  split; [done|]. by eapply list_elem_of_lookup_2.
Qed.

Lemma found_at_unique {A} (P : A → Prop) `{∀ x, Decision (P x)} l i x i' x' :
  found_at P l i x → found_at P l i' x' → i = i' ∧ x = x'.
Proof.
  intros H1 H2. searched H1. searched H2.
  rewrite H1 in H2. by injection H2.
Qed.

(** Where the ids of the stored polls are pairwise distinct, every stored
    poll is the one its id finds. *)
Lemma unique_id_found (polls : list Poll.t) i poll :
  NoDup (Poll.id <$> polls) →
  polls !! i = Some poll →
  found_at (λ p, Poll.id p = Poll.id poll) polls i poll.
Proof.
  intros Hnodup Hi. split; [done|]. split; [done|].
  intros j other Hj Hlt Hid.
  assert (j = i); [|lia].
  apply (NoDup_lookup _ _ _ (Poll.id poll) Hnodup);
    rewrite list_lookup_fmap; [rewrite Hj, <- Hid | rewrite Hi]; done.
Qed.

Lemma NotFound_ne_Conflict : NotFoundError_poll ≠ ConflictError_voted.
Proof. intros H. vm_compute in H. discriminate H. Qed.

Lemma NotFound_ne_Validation : NotFoundError_poll ≠ ValidationError_option.
Proof. intros H. vm_compute in H. discriminate H. Qed.

Lemma Conflict_ne_Validation : ConflictError_voted ≠ ValidationError_option.
Proof. intros H. vm_compute in H. discriminate H. Qed.




(** C4. Membership in [votedBy] is checked before the option: for the stored
    poll that [pollId] names and a user already in its [votedBy], [castVote]
    throws the already-voted error whatever [optionId] is, and stores
    nothing. *)
Theorem castVote_membership_before_option ls polls pollId optionId userId i poll :
  getPolls ls = (Ok polls, ls) →
  found_at (λ p, Poll.id p = pollId) polls i poll →
  userId ∈ Poll.votedBy poll →
  castVote pollId optionId userId ls = (Throw ConflictError_voted, ls).
Proof. apply castVote_conflict. Qed.

Lemma castVote_membership_before_option_witness :
  (js "bogus" ∉ [js "opt-1-1"; js "opt-1-2"; js "opt-1-3"; js "opt-1-4"])
  ∧ castVote (js "poll-1") (js "bogus") (js "user-42") voted
    = (Throw ConflictError_voted, voted).
Proof.
  split; [apply (bool_decide_unpack _); vm_compute; exact I|].
  apply (castVote_membership_before_option voted
           (<[0%nat := recordVote 1 (js "user-42")
                (Poll.mk (js "poll-1")
                   (js "What is your favorite frontend framework?")
                   [ PollOption.mk (js "opt-1-1") (js "React") 15;
                     PollOption.mk (js "opt-1-2") (js "Vue") 8;
                     PollOption.mk (js "opt-1-3") (js "Svelte") 12;
                     PollOption.mk (js "opt-1-4") (js "Angular") 3 ]
                   (js "user-1") [])]> initialPolls)
           (js "poll-1") (js "bogus") (js "user-42") 0
           (recordVote 1 (js "user-42")
              (Poll.mk (js "poll-1")
                 (js "What is your favorite frontend framework?")
                 [ PollOption.mk (js "opt-1-1") (js "React") 15;
                   PollOption.mk (js "opt-1-2") (js "Vue") 8;
                   PollOption.mk (js "opt-1-3") (js "Svelte") 12;
                   PollOption.mk (js "opt-1-4") (js "Angular") 3 ]
                 (js "user-1") []))).
  - vm_compute. reflexivity.
  - apply (proj1 (list_find_Some _ _ _ _)). vm_compute. reflexivity.
  - apply (bool_decide_unpack _). vm_compute. exact I.
Defined.

(** C5. The failures of [castVote] are these three, each under exactly its
    condition: the not-found error when no stored poll has the id [pollId];
    the already-voted error when the poll with that id has [userId] in its
    [votedBy]; the invalid-option error when that poll has not been voted on
    by [userId] and none of its options has the id [optionId].  Whenever
    [castVote] throws, the storage is what it was. *)
Theorem castVote_failures ls polls pollId optionId userId :
  getPolls ls = (Ok polls, ls) →
  let outcome := castVote pollId optionId userId ls in
  (fst outcome = Throw NotFoundError_poll ↔ pollId ∉ Poll.id <$> polls)
  ∧ (fst outcome = Throw ConflictError_voted ↔
     ∃ i poll, found_at (λ p, Poll.id p = pollId) polls i poll
               ∧ userId ∈ Poll.votedBy poll)
  ∧ (fst outcome = Throw ValidationError_option ↔
     ∃ i poll, found_at (λ p, Poll.id p = pollId) polls i poll
               ∧ (userId ∉ Poll.votedBy poll)
               ∧ (optionId ∉ PollOption.id <$> Poll.options poll))
  ∧ (∀ e, fst outcome = Throw e →
       e ∈ [NotFoundError_poll; ConflictError_voted; ValidationError_option]
       ∧ snd outcome = ls).
Proof.
  intros Hpolls outcome. subst outcome.
  pose proof NotFound_ne_Conflict as Hnc.
  pose proof NotFound_ne_Validation as Hnv.
  pose proof Conflict_ne_Validation as Hcv.
  assert (Hsame : ∀ i poll i' poll',
            found_at (λ p, Poll.id p = pollId) polls i poll →
            found_at (λ p, Poll.id p = pollId) polls i' poll' →
            poll' = poll).
  { intros i poll i' poll' Hfound Hfound'.
    by destruct (found_at_unique _ _ _ _ _ _ Hfound' Hfound). }
  assert (Hnamed : ∀ i poll,
            found_at (λ p, Poll.id p = pollId) polls i poll →
            pollId ∈ Poll.id <$> polls).
  { intros i poll. apply (found_at_named Poll.id). }
  destruct (decide (pollId ∈ Poll.id <$> polls)) as [Hin | Hout].
  - destruct (named_poll_found _ _ Hin) as (i & poll & Hfound).
    destruct (decide (userId ∈ Poll.votedBy poll)) as [Hvoted | Hnew].
    + rewrite (castVote_conflict _ optionId _ _ _ _ _ Hpolls Hfound Hvoted).
      simpl. split; [|split; [|split]].
      * split; [intros [= Heq]; by symmetry in Heq | done].
      * split; eauto.
      * split; [intros [= Heq]; done|].
        intros (i' & poll' & Hfound' & Hnew' & _).
        by rewrite (Hsame _ _ _ _ Hfound Hfound') in Hnew'.
      * intros e [= <-]. rewrite !elem_of_cons. auto.
    + destruct (decide (optionId ∈ PollOption.id <$> Poll.options poll))
        as [Hopt | Hnone].
      * destruct (named_option_found _ _ Hopt) as (j & o & Hoption).
        rewrite (castVote_commit _ _ _ _ _ _ _ _ _ Hpolls Hfound Hnew Hoption).
        simpl. split; [|split; [|split]].
        -- split; [discriminate | done].
        -- split; [discriminate|].
           intros (i' & poll' & Hfound' & Hvoted').
           by rewrite (Hsame _ _ _ _ Hfound Hfound') in Hvoted'.
        -- split; [discriminate|].
           intros (i' & poll' & Hfound' & _ & Hnone').
           by rewrite (Hsame _ _ _ _ Hfound Hfound') in Hnone'.
        -- discriminate.
      * rewrite (castVote_invalid_option _ _ _ _ _ _ _ Hpolls Hfound Hnew Hnone).
        simpl. split; [|split; [|split]].
        -- split; [intros [= Heq]; by symmetry in Heq | done].
        -- split; [intros [= Heq]; by symmetry in Heq|].
           intros (i' & poll' & Hfound' & Hvoted').
           by rewrite (Hsame _ _ _ _ Hfound Hfound') in Hvoted'.
        -- split; eauto 6.
        -- intros e [= <-]. rewrite !elem_of_cons. auto.
  - rewrite (castVote_not_found _ optionId userId _ _ Hpolls Hout). simpl.
    split; [|split; [|split]].
    + done.
    + split; [intros [= Heq]; done|].
      intros (i' & poll' & Hfound' & _). exfalso. eauto.
    + split; [intros [= Heq]; done|].
      intros (i' & poll' & Hfound' & _). exfalso. eauto.
    + intros e [= <-]. rewrite !elem_of_cons. auto.
Qed.

Lemma castVote_failures_witness :
  getPolls voted = (Ok (default [] (polly_polls voted)), voted)
  ∧ let outcome := castVote (js "poll-1") (js "opt-1-9") (js "user-7") voted in
    (fst outcome = Throw NotFoundError_poll
     ↔ js "poll-1" ∉ Poll.id <$> default [] (polly_polls voted))
    ∧ (fst outcome = Throw ConflictError_voted ↔
       ∃ i poll,
         found_at (λ p, Poll.id p = js "poll-1")
           (default [] (polly_polls voted)) i poll
         ∧ js "user-7" ∈ Poll.votedBy poll)
    ∧ (fst outcome = Throw ValidationError_option ↔
       ∃ i poll,
         found_at (λ p, Poll.id p = js "poll-1")
           (default [] (polly_polls voted)) i poll
         ∧ (js "user-7" ∉ Poll.votedBy poll)
         ∧ (js "opt-1-9" ∉ PollOption.id <$> Poll.options poll))
    ∧ (∀ e, fst outcome = Throw e →
         e ∈ [NotFoundError_poll; ConflictError_voted; ValidationError_option]
         ∧ snd outcome = voted).
Proof.
  split; [reflexivity|].
  exact (castVote_failures voted (default [] (polly_polls voted))
           (js "poll-1") (js "opt-1-9") (js "user-7") eq_refl).
Defined.

(** ** The vote count and [votedBy] *)

Lemma fold_votes_from (l : list PollOption.t) a :
  fold_left (λ sum option, sum + PollOption.votes option) l a
  = a + fold_left (λ sum option, sum + PollOption.votes option) l 0.
Proof.
  revert a. induction l as [|o l IH]; intros a; simpl; [lia|].
  rewrite (IH (a + _)), (IH (0 + _)). lia.
Qed.

Lemma fold_votes_alter (l : list PollOption.t) j o :
  l !! j = Some o →
  fold_left (λ sum option, sum + PollOption.votes option)
    (alter addVote j l) 0
  = fold_left (λ sum option, sum + PollOption.votes option) l 0 + 1.
Proof.
  revert j. induction l as [|x l IH]; intros [|j] Hj; try done; simpl in *.
  - injection Hj as ->.
    rewrite (fold_votes_from l (0 + (_ + 1))), (fold_votes_from l (0 + _)).
    lia.
  - rewrite (fold_votes_from _ (0 + _)), (fold_votes_from l (0 + _)).
    change (list_alter addVote j l) with (alter addVote j l).
    rewrite (IH j Hj). lia.
Qed.

Lemma totalVotes_recordVote j userId poll o :
  Poll.options poll !! j = Some o →
  totalVotes (recordVote j userId poll) = totalVotes poll + 1.
Proof. apply fold_votes_alter. Qed.

Lemma fold_votes_zero (l : list PollOption.t) :
  Forall (λ o, PollOption.votes o = 0) l →
  fold_left (λ sum option, sum + PollOption.votes option) l 0 = 0.
Proof.
  induction 1 as [|o l Ho _ IH]; simpl; [done|].
  rewrite fold_votes_from, IH. lia.
Qed.

Lemma totalVotes_newPoll question options userId now :
  totalVotes (newPoll question options userId now) = 0.
Proof. apply fold_votes_zero, newPoll_votes. Qed.

Lemma seededVotes_later i : (2 ≤ i)%nat → seededVotes i = 0.
Proof.
  intros Hi. destruct i as [|[|i]]; [lia | lia | reflexivity].
Qed.

Lemma votes_accounted_seeded session :
  votes_accounted (snd (initialize (mkStorage None session))).
Proof.
  exists initialPolls. split; [reflexivity|]. split; [simpl; lia|].
  intros [|[|i]] poll; simpl.
  - intros [= <-]. reflexivity.
  - intros [= <-]. reflexivity.
  - discriminate.
Qed.

Lemma votes_accounted_signIn uname now ls :
  votes_accounted ls → votes_accounted (snd (signIn uname now ls)).
Proof.
  unfold signIn. destruct (_ || _); [done|].
  intros (polls & Hstored & Hrest). by exists polls.
Qed.

Lemma votes_accounted_createPoll question options userId now ls :
  votes_accounted ls →
  votes_accounted (snd (createPoll question options userId now ls)).
Proof.
  intros Hacc. unfold createPoll. destruct (_ || _ || _); [done|].
  destruct Hacc as (polls & Hstored & Hlen & Hvotes).
  run. rewrite Hstored. eexists. split; [reflexivity|].
  split; [rewrite length_app; lia|].
  intros i poll [Hold | [Hi Hnew]]%lookup_app_Some; [by apply Hvotes|].
  apply list_lookup_singleton_Some in Hnew as [Hi0 <-].
  rewrite totalVotes_newPoll, seededVotes_later by lia. done.
Qed.

Lemma votes_accounted_castVote pollId optionId userId ls :
  votes_accounted ls →
  votes_accounted (snd (castVote pollId optionId userId ls)).
Proof.
  intros Hacc. unfold castVote. run.
  destruct (list_find _ _) as [[i poll]|] eqn:Hfind; [|done].
  destruct (bool_decide _); [done|].
  destruct (list_find _ (Poll.options poll)) as [[j o]|] eqn:Hopt; [|done].
  simpl. destruct Hacc as (polls & Hstored & Hlen & Hvotes).
  rewrite Hstored in Hfind |- *.
  apply list_find_Some in Hfind as (Hi & _ & _).
  apply list_find_Some in Hopt as (Hj & _ & _).
  eexists. split; [reflexivity|]. split; [rewrite length_insert; lia|].
  intros k poll'. destruct (decide (k = i)) as [->|Hne].
  - rewrite list_lookup_insert_eq by (by eapply lookup_lt_Some).
    intros [= <-]. rewrite (totalVotes_recordVote _ _ _ _ Hj).
    rewrite (Hvotes _ _ Hi). simpl. rewrite length_app. simpl. lia.
  - rewrite list_lookup_insert_ne by done. apply Hvotes.
Qed.

Lemma votes_accounted_observable ls : observable ls → votes_accounted ls.
Proof.
  induction 1 as [session | c ls _ IH]; [apply votes_accounted_seeded|].
  destruct c; cbn [perform].
  - destruct IH as (polls & Hstored & Hrest).
    unfold initialize. run. rewrite Hstored. simpl. by exists polls.
  - by apply votes_accounted_signIn.
  - destruct IH as (polls & Hstored & Hrest). by exists polls.
  - by apply votes_accounted_createPoll.
  - by apply votes_accounted_castVote.
Qed.

(** C1 fails as stated: right after seeding, the options of poll-1 hold 38
    votes and its [votedBy] is empty. *)
Lemma seeded_votes_exceed_votedBy :
  observable seeded
  ∧ ∃ polls poll,
      getPolls seeded = (Ok polls, seeded)
      ∧ polls !! 0%nat = Some poll
      ∧ totalVotes poll = 38
      ∧ length (Poll.votedBy poll) = 0%nat
      ∧ totalVotes poll ≠ Z.of_nat (length (Poll.votedBy poll)).
Proof.
  split; [apply observable_seeded|].
  eexists _, _. split; [reflexivity|]. split; [reflexivity|].
  split; [reflexivity|]. split; [reflexivity|]. discriminate.
Qed.

(** C1, as the code has it. At every observation point the collection is
    stored and, for every poll in it, the sum of the [votes] of its options
    equals the length of its [votedBy] plus the votes the poll was seeded
    with: 38 for poll-1 and 43 for poll-2, the first two polls of the
    collection, and none for a poll made by [createPoll].  So for every poll
    after the two seeded ones the sum of the votes equals the length of
    [votedBy]. *)
Theorem vote_sum_tracks_votedBy ls polls i poll :
  observable ls →
  getPolls ls = (Ok polls, ls) →
  polls !! i = Some poll →
  totalVotes poll = Z.of_nat (length (Poll.votedBy poll)) + seededVotes i
  ∧ seededVotes 0 = 38 ∧ seededVotes 1 = 43
  ∧ ((2 ≤ i)%nat →
     totalVotes poll = Z.of_nat (length (Poll.votedBy poll))).
Proof.
  intros (stored & Hstored & _ & Hvotes)%votes_accounted_observable
    [_ ->]%getPolls_inv Hi.
  rewrite Hstored in Hi. pose proof (Hvotes _ _ Hi) as Hsum.
  split; [done|]. split; [reflexivity|]. split; [reflexivity|].
  intros Hlater. rewrite Hsum, seededVotes_later by done. lia.
Qed.

Lemma vote_sum_tracks_votedBy_witness :
  observable voted
  ∧ getPolls voted = (Ok (default [] (polly_polls voted)), voted)
  ∧ ∃ poll,
      default [] (polly_polls voted) !! 0%nat = Some poll
      ∧ totalVotes poll = Z.of_nat (length (Poll.votedBy poll)) + seededVotes 0
      ∧ seededVotes 0 = 38 ∧ seededVotes 1 = 43
      ∧ ((2 ≤ 0)%nat →
         totalVotes poll = Z.of_nat (length (Poll.votedBy poll))).
Proof.
  assert (Hobs : observable voted).
  { apply (observable_call
             (CallCastVote (js "poll-1") (js "opt-1-2") (js "user-42"))).
    apply observable_seeded. }
  split; [exact Hobs|]. split; [reflexivity|].
  eexists. split; [vm_compute; reflexivity|].
  apply (vote_sum_tracks_votedBy voted (default [] (polly_polls voted)));
    [exact Hobs | reflexivity | vm_compute; reflexivity].
Defined.

(** ** Generated ids *)

Lemma js_cons a s : js (String a s) = N_of_ascii a :: js s.
Proof. reflexivity. Qed.

Lemma js_inj s1 s2 : js s1 = js s2 → s1 = s2.
Proof.
  revert s2. induction s1 as [|a s1 IH]; intros [|b s2]; try done.
  rewrite !js_cons. intros [= Hab Hrest].
  f_equal; [|by apply IH].
  by rewrite <- (ascii_N_embedding a), <- (ascii_N_embedding b), Hab.
Qed.

Lemma ofNumber_inj n m : ofNumber n = ofNumber m → n = m.
Proof.
  unfold ofNumber. intros Heq%js_inj.
  assert (Hnonnil : ∀ z, Z.to_int z ≠ Decimal.Pos Decimal.Nil
                         ∧ Z.to_int z ≠ Decimal.Neg Decimal.Nil).
  { intros [|p|p]; simpl; split; try discriminate;
      intros [= Hp]; by apply (Unsigned.to_uint_nonnil p). }
  assert (Hint : Some (Z.to_int n) = Some (Z.to_int m)).
  { rewrite <- (NilZero.isi (Z.to_int n)), <- (NilZero.isi (Z.to_int m))
      by apply Hnonnil.
    by rewrite Heq. }
  injection Hint as Hint.
  by rewrite <- (DecimalZ.of_to n), <- (DecimalZ.of_to m), Hint.
Qed.

Lemma digits_of_uint d :
  Forall (λ c, c ≠ 45%N) (js (NilEmpty.string_of_uint d)).
Proof.
  induction d; simpl NilEmpty.string_of_uint; rewrite ?js_cons;
    constructor; done.
Qed.

Lemma ofNumber_of_nat_digits (i : nat) :
  Forall (λ c, c ≠ 45%N) (ofNumber (Z.of_nat i)).
Proof.
  unfold ofNumber. destruct (Z.of_nat i) as [|p|p] eqn:Hi; [| |lia].
  - repeat constructor. done.
  - simpl. pose proof (Unsigned.to_uint_nonnil p) as Hnonnil.
    destruct (Pos.to_uint p) eqn:Hp; try done; apply digits_of_uint.
Qed.

Lemma app_cons_last {A} (x : A) l1 r1 l2 r2 :
  x ∉ r1 → x ∉ r2 → l1 ++ x :: r1 = l2 ++ x :: r2 → r1 = r2.
Proof.
  intros H1 H2 Heq. apply (f_equal reverse) in Heq.
  rewrite !reverse_app, !reverse_cons, <- !(assoc_L (++)) in Heq.
  simpl in Heq. apply (inj reverse).
  revert H1 H2 Heq. rewrite <- (elem_of_reverse x r1), <- (elem_of_reverse x r2).
  generalize (reverse r1) (reverse r2) (reverse l1) (reverse l2).
  intros a. induction a as [|y a IH]; intros [|z b] c d Ha Hb; simpl.
  - done.
  - intros [= -> _]. exfalso. apply Hb. by left.
  - intros [= -> _]. exfalso. apply Ha. by left.
  - intros [= -> Hrest]. f_equal.
    apply (IH b c d); [| |done]; intros Hin; [apply Ha | apply Hb]; by right.
Qed.

Lemma option_id_inj t1 t2 (i j : nat) :
  js "opt-" ++ ofNumber t1 ++ js "-" ++ ofNumber (Z.of_nat i)
  = js "opt-" ++ ofNumber t2 ++ js "-" ++ ofNumber (Z.of_nat j) →
  i = j.
Proof.
  intros Heq.
  assert (Hdigits : ∀ k : nat, 45%N ∉ ofNumber (Z.of_nat k)).
  { intros k Hin.
    by apply (proj1 (Forall_forall _ _) (ofNumber_of_nat_digits k)) in Hin. }
  assert (ofNumber (Z.of_nat i) = ofNumber (Z.of_nat j)) as Hsame.
  { apply (app_cons_last 45%N (js "opt-" ++ ofNumber t1) _
             (js "opt-" ++ ofNumber t2) _ (Hdigits i) (Hdigits j)).
    rewrite <- !(assoc_L (++)). exact Heq. }
  apply ofNumber_inj in Hsame. lia.
Qed.

Lemma newPoll_option_ids_NoDup question options userId now :
  NoDup (PollOption.id <$> Poll.options (newPoll question options userId now)).
Proof.
  apply NoDup_alt. intros i j name.
  unfold newPoll. cbn [Poll.options].
  rewrite !list_lookup_fmap, !list_lookup_imap.
  destruct (options !! i); [|done]. destruct (options !! j); [|done].
  intros Hi Hj. apply (option_id_inj (now (S i)) (now (S j))).
  apply (inj Some). exact (eq_trans Hi (eq_sym Hj)).
Qed.

(** ** More on the service *)

(** X1. The initializer seeds a storage without the poll collection with
    [initialPolls] and leaves a storage that has one exactly as it is; it
    never touches the session record, and running it again changes nothing. *)
Theorem initialize_seeds_once ls :
  (polly_polls ls = None →
   snd (initialize ls) = mkStorage (Some initialPolls) (polly_current_user ls))
  ∧ (polly_polls ls ≠ None → snd (initialize ls) = ls)
  ∧ snd (initialize (snd (initialize ls))) = snd (initialize ls).
Proof.
  destruct ls as [[polls|] session]; unfold initialize; run; done.
Qed.

(** X2. [signOut] removes the session record whatever it held, keeps the
    poll collection, and is idempotent; signing in and then out leaves the
    storage as signing out alone does. *)
Theorem signOut_clears_session_only ls :
  getCurrentUser (snd (signOut ls)) = None
  ∧ polly_polls (snd (signOut ls)) = polly_polls ls
  ∧ snd (signOut (snd (signOut ls))) = snd (signOut ls)
  ∧ ∀ uname now, snd (signOut (snd (signIn uname now ls))) = snd (signOut ls).
Proof.
  repeat split. intros uname now. unfold signIn.
  by destruct (_ || _).
Qed.

(** X3. The two keys are written independently: [signIn] and [signOut]
    never change the poll collection, and [createPoll], [castVote] and the
    initializer never change the session record. *)
Theorem session_and_polls_are_separate
    uname question options userId pollId optionId now ls :
  polly_polls (snd (signIn uname now ls)) = polly_polls ls
  ∧ polly_polls (snd (signOut ls)) = polly_polls ls
  ∧ polly_current_user (snd (createPoll question options userId now ls))
    = polly_current_user ls
  ∧ polly_current_user (snd (castVote pollId optionId userId ls))
    = polly_current_user ls
  ∧ polly_current_user (snd (initialize ls)) = polly_current_user ls.
Proof.
  split; [unfold signIn; by destruct (_ || _)|]. split; [done|].
  split; [unfold createPoll; by destruct (_ || _ || _)|].
  split.
  - unfold castVote. run.
    destruct (list_find _ _) as [[i poll]|]; [|done].
    destruct (bool_decide _); [done|].
    by destruct (list_find _ (Poll.options poll)) as [[j o]|].
  - unfold initialize. run. by destruct (polly_polls ls).
Qed.

(** X4. [createPoll] throws exactly when the question is empty after
    trimming, or there are fewer than two options, or some option is empty
    after trimming; the error is always the one validation error and the
    storage is then unchanged.  Otherwise it returns. *)
Theorem createPoll_outcomes question options userId now ls :
  let outcome := createPoll question options userId now ls in
  (fst outcome = Throw ValidationError_poll ↔
   trim question = [] ∨ (length options < 2)%nat
   ∨ Exists (λ o, trim o = []) options)
  ∧ (∀ e, fst outcome = Throw e → e = ValidationError_poll ∧ snd outcome = ls)
  ∧ (fst outcome = Ok (newPoll question options userId now) ↔
     trim question ≠ [] ∧ (2 ≤ length options)%nat
     ∧ Forall (λ o, trim o ≠ []) options).
Proof.
  intros outcome. subst outcome. unfold createPoll.
  destruct (_ || _ || _) eqn:Hguard.
  - assert (Hbad : ¬ (trim question ≠ [] ∧ (2 ≤ length options)%nat
                      ∧ Forall (λ o, trim o ≠ []) options)).
    { intros Hvalid%createPoll_guard. congruence. }
    rewrite !orb_true_iff, negb_true_iff, truthy_false, Nat.ltb_lt,
      existsb_blank in Hguard.
    simpl. split; [|split].
    + split; [intros _; tauto | done].
    + by intros e [= <-].
    + split; [discriminate | done].
  - apply createPoll_guard in Hguard as (Hq & Hlen & Hopts).
    run. split; [|split].
    + split; [discriminate|].
      intros [Hbad | [Hbad | Hbad]]; [done | lia |].
      by apply Forall_Exists_neg in Hopts.
    + discriminate.
    + done.
Qed.

(** X5. The user [signIn] returns has a username of at least 3 code units
    that neither begins nor ends with white space, and the id [user-] followed
    by the clock reading in decimal. *)
Theorem signIn_username_is_trimmed uname now ls u ls' :
  signIn uname now ls = (Ok u, ls') →
  (3 ≤ length (User.username u))%nat
  ∧ (∀ c rest, User.username u = c :: rest → isWhiteSpace c = false)
  ∧ (∀ c front, User.username u = front ++ [c] → isWhiteSpace c = false)
  ∧ User.id u = js "user-" ++ ofNumber (now 0%nat).
Proof.
  unfold signIn.
  destruct (negb (truthy uname) || (length (trim uname) <? 3)%nat) eqn:Hguard;
    [discriminate|].
  run. intros [= <- _]. cbn [User.username User.id].
  split.
  { apply not_true_iff_false in Hguard. rewrite signIn_guard in Hguard. lia. }
  split; [|split; [|done]].
  - intros c rest Hhead.
    pose proof (trimEnd_starts_clean _ (trimStart_starts_clean uname)) as Hclean.
    fold (trim uname) in Hclean. by rewrite Hhead in Hclean.
  - intros c front Hlast.
    pose proof (trimStart_starts_clean (reverse (trimStart uname))) as Hclean.
    assert (Hrev : reverse (trim uname)
                   = trimStart (reverse (trimStart uname))).
    { unfold trim, trimEnd. by rewrite reverse_involutive. }
    rewrite <- Hrev, Hlast, reverse_snoc in Hclean. exact Hclean.
Qed.

Lemma signIn_username_is_trimmed_witness :
  ∃ u,
    signIn (js "  alice ") noon seeded
    = (Ok u, mkStorage (polly_polls seeded) (Some u))
    ∧ (3 ≤ length (User.username u))%nat
    ∧ (∀ c rest, User.username u = c :: rest → isWhiteSpace c = false)
    ∧ (∀ c front, User.username u = front ++ [c] → isWhiteSpace c = false)
    ∧ User.id u = js "user-" ++ ofNumber (noon 0%nat).
Proof.
  eexists. split; [vm_compute; reflexivity|].
  apply (signIn_username_is_trimmed (js "  alice ") noon seeded _
           (mkStorage (polly_polls seeded)
              (Some (User.mk (js "user-1700000000000") (js "alice"))))).
  vm_compute. reflexivity.
Defined.

Lemma castVote_Ok_inv pollId optionId userId ls poll' ls' :
  castVote pollId optionId userId ls = (Ok poll', ls') →
  ∃ polls i poll j o,
    getPolls ls = (Ok polls, ls)
    ∧ found_at (λ p, Poll.id p = pollId) polls i poll
    ∧ (userId ∉ Poll.votedBy poll)
    ∧ found_at (λ o, PollOption.id o = optionId) (Poll.options poll) j o
    ∧ poll' = recordVote j userId poll
    ∧ ls' = mkStorage (Some (<[i := poll']> polls)) (polly_current_user ls).
Proof.
  unfold castVote. run.
  destruct (list_find _ _) as [[i poll]|] eqn:Hfind; [|discriminate].
  destruct (bool_decide _) eqn:Hvoted; [discriminate|].
  destruct (list_find _ (Poll.options poll)) as [[j o]|] eqn:Hopt;
    [|discriminate].
  intros [= <- <-]. eexists _, i, poll, j, o.
  split; [reflexivity|].
  split; [exact (proj1 (list_find_Some _ _ _ _) Hfind)|].
  split; [by apply bool_decide_eq_false in Hvoted|].
  split; [exact (proj1 (list_find_Some _ _ _ _) Hopt)|]. done.
Qed.

Lemma found_at_insert {A} (P : A → Prop) (l : list A) i x x' :
  found_at P l i x → P x' → found_at P (<[i := x']> l) i x'.
Proof.
  intros (Hi & _ & Hfirst) Hx'. split; [|split; [done|]].
  - apply list_lookup_insert_eq. by eapply lookup_lt_Some.
  - intros j y Hj Hlt. rewrite list_lookup_insert_ne in Hj by lia. eauto.
Qed.

(** X7. The ids [createPoll] generates: the options of the new poll have
    pairwise distinct ids whatever the clock reads, and two polls get the
    same id exactly when the clock read the same time for both. *)
Theorem generated_ids_distinct question options userId now
    question' options' userId' now' :
  NoDup (PollOption.id <$> Poll.options (newPoll question options userId now))
  ∧ (Poll.id (newPoll question options userId now)
     = Poll.id (newPoll question' options' userId' now')
     ↔ now 0%nat = now' 0%nat).
Proof.
  split; [apply newPoll_option_ids_NoDup|].
  unfold newPoll. cbn [Poll.id]. split; [|by intros ->].
  intros Heq%(inj (app (js "poll-"))). by apply ofNumber_inj.
Qed.

Lemma found_at_NoDup {A} (f : A → jsstring) (l : list A) i x :
  NoDup (f <$> l) → l !! i = Some x → found_at (λ y, f y = f x) l i x.
Proof.
  intros Hnodup Hi. split; [done|]. split; [done|].
  intros j y Hj Hlt Hsame. assert (j = i); [|lia].
  apply (NoDup_lookup _ _ _ (f x) Hnodup);
    rewrite list_lookup_fmap; [rewrite Hj, <- Hsame | rewrite Hi]; done.
Qed.

Lemma found_at_appended {A} (f : A → jsstring) (l : list A) x :
  f x ∉ f <$> l → found_at (λ y, f y = f x) (l ++ [x]) (length l) x.
Proof.
  intros Hfresh. split; [|split; [done|]].
  - by rewrite lookup_app_r, Nat.sub_diag by lia.
  - intros j y Hj Hlt Hsame. apply Hfresh.
    rewrite lookup_app_l in Hj by done.
    rewrite <- Hsame. apply list_elem_of_fmap. exists y.
    split; [done|]. by eapply list_elem_of_lookup_2.
Qed.

Lemma votes_alter_addVote (l : list PollOption.t) k :
  Forall (λ o, PollOption.votes o = 0) l → (k < length l)%nat →
  PollOption.votes <$> alter addVote k l = <[k := 1]> (replicate (length l) 0).
Proof.
  intros Hzero Hk. apply list_eq. intros n.
  rewrite list_lookup_fmap. destruct (decide (n = k)) as [->|Hne].
  - rewrite list_lookup_alter_eq, list_lookup_insert_eq
      by (rewrite length_replicate; done).
    destruct (lookup_lt_is_Some_2 l k Hk) as [o Ho]. rewrite Ho. simpl.
    by rewrite (proj1 (Forall_lookup _ _) Hzero _ _ Ho).
  - rewrite list_lookup_alter_ne, list_lookup_insert_ne by done.
    destruct (l !! n) as [o|] eqn:Hn; simpl.
    + rewrite lookup_replicate_2 by (by eapply lookup_lt_Some).
      by rewrite (proj1 (Forall_lookup _ _) Hzero _ _ Hn).
    + symmetry. apply lookup_replicate_None. apply lookup_ge_None in Hn. lia.
Qed.

(** X8. A created poll can be voted on through its generated ids: after a
    valid [createPoll] whose poll id no stored poll has yet, [castVote] with
    the id of the new poll and the id of its [k]-th option returns the poll
    with one vote on option [k], none on the others, and the voter alone in
    [votedBy]. *)
Theorem vote_on_created_poll question options userId now voter k ls polls :
  getPolls ls = (Ok polls, ls) →
  trim question ≠ [] → (2 ≤ length options)%nat →
  Forall (λ o, trim o ≠ []) options →
  Poll.id (newPoll question options userId now) ∉ Poll.id <$> polls →
  (k < length options)%nat →
  ∃ created ls1 o voted' ls2,
    createPoll question options userId now ls = (Ok created, ls1)
    ∧ Poll.options created !! k = Some o
    ∧ castVote (Poll.id created) (PollOption.id o) voter ls1 = (Ok voted', ls2)
    ∧ PollOption.votes <$> Poll.options voted'
      = <[k := 1]> (replicate (length options) 0)
    ∧ PollOption.text <$> Poll.options voted' = options
    ∧ Poll.votedBy voted' = [voter]
    ∧ getPolls ls2 = (Ok (polls ++ [voted']), ls2).
Proof.
  intros Hpolls Hq Hlen Hopts Hfresh Hk.
  pose proof Hpolls as [_ Hstored]%getPolls_inv.
  set (created := newPoll question options userId now) in *.
  assert (Hlength : length (Poll.options created) = length options).
  { apply length_imap. }
  destruct (lookup_lt_is_Some_2 (Poll.options created) k) as [o Ho]; [lia|].
  pose proof (found_at_NoDup PollOption.id _ _ _
                (newPoll_option_ids_NoDup question options userId now) Ho)
    as Hoption.
  pose proof (found_at_appended Poll.id polls created Hfresh) as Hpoll.
  exists created. eexists. exists o. eexists _, _.
  split; [by apply createPoll_accepts|]. split; [done|].
  rewrite <- Hstored.
  split.
  { eapply (castVote_commit _ _ _ _ (polls ++ [created]));
      [reflexivity | exact Hpoll | apply not_elem_of_nil | exact Hoption]. }
  cbn [recordVote Poll.options Poll.votedBy].
  split.
  { rewrite <- Hlength. apply votes_alter_addVote; [apply newPoll_votes | lia]. }
  split.
  { rewrite (alter_addVote _ _ _ Ho), list_fmap_insert.
    cbn [addVote PollOption.text].
    rewrite list_insert_id; [apply newPoll_texts|].
    by rewrite list_lookup_fmap, Ho. }
  split; [done|].
  rewrite getPolls_run. cbn [polly_polls]. do 2 f_equal.
  rewrite insert_app_r_alt, Nat.sub_diag by lia. done.
Qed.

Lemma vote_on_created_poll_witness :
  ∃ created ls1 o voted' ls2,
    createPoll (js "Lunch?") [js "Pizza"; js "Tacos"] (js "user-7") noon seeded
    = (Ok created, ls1)
    ∧ Poll.options created !! 1%nat = Some o
    ∧ castVote (Poll.id created) (PollOption.id o) (js "user-42") ls1
      = (Ok voted', ls2)
    ∧ PollOption.votes <$> Poll.options voted'
      = <[1%nat := 1]> (replicate (length [js "Pizza"; js "Tacos"]) 0)
    ∧ PollOption.text <$> Poll.options voted' = [js "Pizza"; js "Tacos"]
    ∧ Poll.votedBy voted' = [js "user-42"]
    ∧ getPolls ls2 = (Ok (initialPolls ++ [voted']), ls2).
Proof.
  apply (vote_on_created_poll (js "Lunch?") [js "Pizza"; js "Tacos"]
           (js "user-7") noon (js "user-42") 1 seeded initialPolls).
  - reflexivity.
  - vm_compute. discriminate.
  - simpl. lia.
  - repeat constructor; vm_compute; discriminate.
  - apply (bool_decide_unpack _). vm_compute. exact I.
  - simpl. lia.
Defined.

(** ** What the calls keep *)

(** What a completed call does to the collection [getPolls] returns: nothing,
    or the seeding of an absent collection, or the append of a new poll, or
    one recorded vote. *)
Lemma perform_polls c ls polls :
  getPolls ls = (Ok polls, ls) →
  ∃ polls',
    getPolls (perform c ls) = (Ok polls', perform c ls)
    ∧ (polls' = polls
       ∨ (polls = [] ∧ polls' = initialPolls)
       ∨ (∃ question options userId now,
            (2 ≤ length options)%nat
            ∧ polls' = polls ++ [newPoll question options userId now])
       ∨ (∃ i poll j o userId,
            polls !! i = Some poll
            ∧ Poll.options poll !! j = Some o
            ∧ (userId ∉ Poll.votedBy poll)
            ∧ polls' = <[i := recordVote j userId poll]> polls)).
Proof.
  intros [_ ->]%getPolls_inv. eexists. split; [apply getPolls_run|].
  destruct c as [|uname now| |question options userId now
                 |pollId optionId userId]; cbn [perform].
  - unfold initialize. run.
    destruct ls as [[stored|] session]; simpl; [by left | right; left; done].
  - unfold signIn. destruct (_ || _); simpl; auto.
  - simpl. auto.
  - unfold createPoll. destruct (_ || _ || _) eqn:Hguard; [simpl; auto|].
    apply createPoll_guard in Hguard as (_ & Hlen & _).
    run. right; right; left.
    exists question, options, userId, now. split; [done | reflexivity].
  - unfold castVote. run.
    destruct (list_find _ _) as [[i poll]|] eqn:Hfind; [|simpl; auto].
    destruct (bool_decide _) eqn:Hvoted; [simpl; auto|].
    destruct (list_find _ (Poll.options poll)) as [[j o]|] eqn:Hopt;
      [|simpl; auto].
    apply list_find_Some in Hfind as (Hi & _ & _).
    apply list_find_Some in Hopt as (Hj & _ & _).
    apply bool_decide_eq_false in Hvoted.
    simpl. right; right; right.
    exists i, poll, j, o, userId. repeat (split; [done|]). reflexivity.
Qed.

Lemma well_formed_initialPolls : Forall well_formed initialPolls.
Proof.
  repeat constructor; simpl; try lia;
    try (apply (bool_decide_unpack _); vm_compute; exact I).
Qed.

Lemma well_formed_newPoll question options userId now :
  (2 ≤ length options)%nat → well_formed (newPoll question options userId now).
Proof.
  intros Hlen. split; [|split; [|split]].
  - unfold newPoll. cbn [Poll.options]. by rewrite length_imap.
  - apply newPoll_option_ids_NoDup.
  - eapply Forall_impl; [apply newPoll_votes|]. simpl. intros o ->. done.
  - apply NoDup_nil. done.
Qed.

Lemma recordVote_ids j userId poll :
  PollOption.id <$> Poll.options (recordVote j userId poll)
  = PollOption.id <$> Poll.options poll.
Proof.
  cbn [recordVote Poll.options].
  rewrite (list_fmap_alter PollOption.id addVote (λ x, x));
    [apply list_alter_id; done | by apply Forall_true].
Qed.

Lemma recordVote_texts j userId poll :
  PollOption.text <$> Poll.options (recordVote j userId poll)
  = PollOption.text <$> Poll.options poll.
Proof.
  cbn [recordVote Poll.options].
  rewrite (list_fmap_alter PollOption.text addVote (λ x, x));
    [apply list_alter_id; done | by apply Forall_true].
Qed.

Lemma well_formed_recordVote j userId poll :
  well_formed poll → userId ∉ Poll.votedBy poll →
  well_formed (recordVote j userId poll).
Proof.
  intros (Hlen & Hids & Hvotes & Hvoters) Hnew. split; [|split; [|split]].
  - cbn [recordVote Poll.options]. by rewrite length_alter.
  - by rewrite recordVote_ids.
  - cbn [recordVote Poll.options]. apply Forall_alter; [done|].
    intros o _ Ho. simpl. lia.
  - cbn [recordVote Poll.votedBy]. apply NoDup_app.
    split; [done|]. split; [|apply NoDup_singleton].
    intros x Hx ->%list_elem_of_singleton. done.
Qed.

Lemma well_formed_observable ls polls :
  observable ls → getPolls ls = (Ok polls, ls) → Forall well_formed polls.
Proof.
  intros Hobs. revert polls.
  induction Hobs as [session | c ls _ IH]; intros polls.
  - intros [= <-]. apply well_formed_initialPolls.
  - destruct (perform_polls c ls _ (getPolls_run ls))
      as (polls' & Hafter & Hcases).
    rewrite Hafter. intros [= <-].
    specialize (IH _ (getPolls_run ls)).
    destruct Hcases as [-> | [[_ ->] | [Hnew | Hvote]]].
    + done.
    + apply well_formed_initialPolls.
    + destruct Hnew as (question & options & userId & now & Hlen & ->).
      apply Forall_app. split; [done|].
      constructor; [by apply well_formed_newPoll | done].
    + destruct Hvote as (i & poll & j & o & userId & Hi & _ & Hnotin & ->).
      apply Forall_insert; [done|].
      apply well_formed_recordVote; [|done].
      by apply (proj1 (Forall_lookup _ _) IH i).
Qed.

(** X9. At every observation point no stored poll lists a user twice in its
    [votedBy]. *)
Theorem votedBy_never_repeats ls polls poll :
  observable ls → getPolls ls = (Ok polls, ls) → poll ∈ polls →
  NoDup (Poll.votedBy poll).
Proof.
  intros Hobs Hpolls Hin.
  pose proof (well_formed_observable _ _ Hobs Hpolls) as Hall.
  by destruct (proj1 (Forall_forall _ _) Hall _ Hin) as (_ & _ & _ & Hvoters).
Qed.

Lemma votedBy_never_repeats_witness : NoDup (Poll.votedBy votedPoll1).
Proof.
  apply (votedBy_never_repeats voted (default [] (polly_polls voted))).
  - apply (observable_call
             (CallCastVote (js "poll-1") (js "opt-1-2") (js "user-42"))).
    apply observable_seeded.
  - reflexivity.
  - apply (list_elem_of_lookup_2 _ 0%nat). vm_compute. reflexivity.
Defined.

(** X10. At every observation point every stored poll has at least two
    options, the ids of its options are pairwise distinct, and no option has
    a negative vote count, so that [totalVotes] is never negative. *)
Theorem stored_polls_keep_shape ls polls poll :
  observable ls → getPolls ls = (Ok polls, ls) → poll ∈ polls →
  (2 ≤ length (Poll.options poll))%nat
  ∧ NoDup (PollOption.id <$> Poll.options poll)
  ∧ Forall (λ o, 0 ≤ PollOption.votes o) (Poll.options poll)
  ∧ 0 ≤ totalVotes poll.
Proof.
  intros Hobs Hpolls Hin.
  pose proof (well_formed_observable _ _ Hobs Hpolls) as Hall.
  destruct (proj1 (Forall_forall _ _) Hall _ Hin) as (Hlen & Hids & Hvotes & _).
  repeat (split; [done|]).
  unfold totalVotes. clear -Hvotes.
  induction Hvotes as [|o l Ho _ IH]; simpl; [done|].
  rewrite fold_votes_from. lia.
Qed.

Lemma stored_polls_keep_shape_witness :
  (2 ≤ length (Poll.options votedPoll1))%nat
  ∧ NoDup (PollOption.id <$> Poll.options votedPoll1)
  ∧ Forall (λ o, 0 ≤ PollOption.votes o) (Poll.options votedPoll1)
  ∧ 0 ≤ totalVotes votedPoll1.
Proof.
  apply (stored_polls_keep_shape voted (default [] (polly_polls voted))).
  - apply (observable_call
             (CallCastVote (js "poll-1") (js "opt-1-2") (js "user-42"))).
    apply observable_seeded.
  - reflexivity.
  - apply (list_elem_of_lookup_2 _ 0%nat). vm_compute. reflexivity.
Defined.

Lemma grown_from_refl poll : grown_from poll poll.
Proof.
  repeat (split; [done|]). split; [|done].
  apply Forall2_same_length_lookup_2; [done|].
  intros i x y Hx Hy. rewrite Hx in Hy. injection Hy as <-. lia.
Qed.

Lemma grown_from_trans p1 p2 p3 :
  grown_from p1 p2 → grown_from p2 p3 → grown_from p1 p3.
Proof.
  intros (Hid & Hq & Hc & Hids & Htexts & Hvotes & Hvoters)
         (Hid' & Hq' & Hc' & Hids' & Htexts' & Hvotes' & Hvoters').
  split; [congruence|]. split; [congruence|]. split; [congruence|].
  split; [congruence|]. split; [congruence|]. split.
  - eapply Forall2_trans; [|exact Hvotes|exact Hvotes'].
    simpl. intros x y z Hxy Hyz. lia.
  - by etrans.
Qed.

Lemma grown_from_recordVote j userId poll :
  grown_from poll (recordVote j userId poll).
Proof.
  split; [done|]. split; [done|]. split; [done|].
  split; [apply recordVote_ids|]. split; [apply recordVote_texts|]. split.
  - cbn [recordVote Poll.options].
    apply Forall2_same_length_lookup_2; [by rewrite length_alter|].
    intros i x y Hx. destruct (decide (i = j)) as [->|Hne].
    + rewrite list_lookup_alter_eq, Hx. intros [= <-]. simpl. lia.
    + rewrite list_lookup_alter_ne, Hx by done. intros [= <-]. lia.
  - cbn [recordVote Poll.votedBy]. by apply prefix_app_r.
Qed.

Lemma perform_grows c ls polls :
  getPolls ls = (Ok polls, ls) →
  ∃ polls',
    getPolls (perform c ls) = (Ok polls', perform c ls)
    ∧ (length polls ≤ length polls')%nat
    ∧ ∀ i poll, polls !! i = Some poll →
        ∃ poll', polls' !! i = Some poll' ∧ grown_from poll poll'.
Proof.
  intros Hpolls.
  destruct (perform_polls c ls polls Hpolls) as (polls' & Hafter & Hcases).
  exists polls'. split; [done|].
  destruct Hcases as [-> | [[-> ->] | [Hnew | Hvote]]].
  - split; [done|]. intros i poll Hi. exists poll.
    split; [done | apply grown_from_refl].
  - split; [simpl; lia|]. intros i poll Hi. by rewrite lookup_nil in Hi.
  - destruct Hnew as (question & options & userId & now & _ & ->).
    split; [rewrite length_app; lia|]. intros i poll Hi. exists poll.
    split; [|apply grown_from_refl].
    rewrite lookup_app_l; [done | by eapply lookup_lt_Some].
  - destruct Hvote as (k & voted' & j & o & userId & Hk & _ & _ & ->).
    split; [by rewrite length_insert|]. intros i poll Hi.
    destruct (decide (i = k)) as [->|Hne].
    + rewrite Hk in Hi. injection Hi as ->. eexists.
      split; [|apply grown_from_recordVote].
      apply list_lookup_insert_eq. by eapply lookup_lt_Some.
    + exists poll. rewrite list_lookup_insert_ne by done.
      split; [done | apply grown_from_refl].
Qed.

(** X11. The collection is append-only: whatever calls are made, in whatever
    order and whether they return or throw, every poll stays at its index
    with the same id, question, creator, option ids and option texts; no
    vote count goes down, [votedBy] only gets longer at its end, and no poll
    disappears. *)
Theorem calls_only_grow calls ls polls :
  getPolls ls = (Ok polls, ls) →
  ∃ polls',
    getPolls (perform_all calls ls) = (Ok polls', perform_all calls ls)
    ∧ (length polls ≤ length polls')%nat
    ∧ ∀ i poll, polls !! i = Some poll →
        ∃ poll', polls' !! i = Some poll' ∧ grown_from poll poll'.
Proof.
  revert ls polls. induction calls as [|c calls IH]; intros ls polls Hpolls.
  - exists polls. split; [done|]. split; [done|].
    intros i poll Hi. exists poll. split; [done | apply grown_from_refl].
  - destruct (perform_grows c ls polls Hpolls)
      as (polls1 & Hpolls1 & Hlen1 & Hgrow1).
    destruct (IH _ _ Hpolls1) as (polls2 & Hpolls2 & Hlen2 & Hgrow2).
    exists polls2. split; [exact Hpolls2|]. split; [lia|].
    intros i poll Hi.
    destruct (Hgrow1 _ _ Hi) as (poll1 & Hi1 & Hg1).
    destruct (Hgrow2 _ _ Hi1) as (poll2 & Hi2 & Hg2).
    exists poll2. split; [done|]. by eapply grown_from_trans.
Qed.

Lemma calls_only_grow_witness :
  ∃ polls',
    getPolls
      (perform_all
         [ CallCastVote (js "poll-1") (js "opt-1-2") (js "user-42");
           CallCreatePoll (js "Lunch?") [js "Pizza"; js "Tacos"]
             (js "user-7") noon;
           CallSignOut ] seeded)
    = (Ok polls',
       perform_all
         [ CallCastVote (js "poll-1") (js "opt-1-2") (js "user-42");
           CallCreatePoll (js "Lunch?") [js "Pizza"; js "Tacos"]
             (js "user-7") noon;
           CallSignOut ] seeded)
    ∧ (length initialPolls ≤ length polls')%nat
    ∧ ∀ i poll, initialPolls !! i = Some poll →
        ∃ poll', polls' !! i = Some poll' ∧ grown_from poll poll'.
Proof.
  apply (calls_only_grow
           [ CallCastVote (js "poll-1") (js "opt-1-2") (js "user-42");
             CallCreatePoll (js "Lunch?") [js "Pizza"; js "Tacos"]
               (js "user-7") noon;
             CallSignOut ] seeded initialPolls).
  reflexivity.
Defined.

Lemma found_at_grown pollId (polls polls' : list Poll.t) i poll :
  found_at (λ p, Poll.id p = pollId) polls i poll →
  (∀ k p, polls !! k = Some p →
     ∃ p', polls' !! k = Some p' ∧ grown_from p p') →
  ∃ poll', found_at (λ p, Poll.id p = pollId) polls' i poll'
           ∧ grown_from poll poll'.
Proof.
  intros (Hi & Hid & Hfirst) Hgrown.
  destruct (Hgrown _ _ Hi) as (poll' & Hi' & Hg).
  exists poll'. split; [|done]. split; [done|]. split.
  - destruct Hg as (-> & _). done.
  - intros j y Hj Hlt Hy.
    destruct (lookup_lt_is_Some_2 polls j) as [x Hx].
    { apply lookup_lt_Some in Hi. lia. }
    destruct (Hgrown _ _ Hx) as (x' & Hx' & Hgx).
    rewrite Hj in Hx'. injection Hx' as <-.
    destruct Hgx as (Hsame & _). rewrite Hsame in Hy.
    by apply (Hfirst j x).
Qed.

Lemma voter_stays calls ls polls pollId userId i poll :
  getPolls ls = (Ok polls, ls) →
  found_at (λ p, Poll.id p = pollId) polls i poll →
  userId ∈ Poll.votedBy poll →
  ∃ polls' poll',
    getPolls (perform_all calls ls) = (Ok polls', perform_all calls ls)
    ∧ found_at (λ p, Poll.id p = pollId) polls' i poll'
    ∧ userId ∈ Poll.votedBy poll'.
Proof.
  revert ls polls poll.
  induction calls as [|c calls IH]; intros ls polls poll Hpolls Hfound Hvoted.
  - exists polls, poll. done.
  - destruct (perform_grows c ls polls Hpolls) as (polls1 & Hpolls1 & _ & Hgrow).
    destruct (found_at_grown _ _ _ _ _ Hfound Hgrow) as (poll1 & Hfound1 & Hg).
    apply (IH _ _ poll1 Hpolls1 Hfound1).
    destruct Hg as (_ & _ & _ & _ & _ & _ & [later ->]).
    apply elem_of_app. by left.
Qed.

(** X6. One vote per user and poll: once [castVote] has returned for a poll
    and a user, every further [castVote] for that poll and user, right away
    or after any sequence of other completed calls, throws the already-voted
    error, whatever option it names, and stores nothing. *)
Theorem castVote_once_per_user
    pollId optionId optionId' userId ls poll' ls' calls :
  castVote pollId optionId userId ls = (Ok poll', ls') →
  castVote pollId optionId' userId (perform_all calls ls')
  = (Throw ConflictError_voted, perform_all calls ls').
Proof.
  intros (polls & i & poll & j & o & _ & Hfound & _ & _ & -> & ->)%castVote_Ok_inv.
  assert (Hfound' : found_at (λ p, Poll.id p = pollId)
                      (<[i := recordVote j userId poll]> polls) i
                      (recordVote j userId poll)).
  { apply (found_at_insert _ _ _ _ _ Hfound).
    by destruct Hfound as (_ & <- & _). }
  assert (Hvoted : userId ∈ Poll.votedBy (recordVote j userId poll)).
  { cbn [recordVote Poll.votedBy]. apply elem_of_app. right. by left. }
  destruct (voter_stays calls
              (mkStorage (Some (<[i := recordVote j userId poll]> polls))
                 (polly_current_user ls))
              (<[i := recordVote j userId poll]> polls) pollId userId i _
              eq_refl Hfound' Hvoted)
    as (polls' & later & Hpolls' & Hlater & Hin).
  by eapply castVote_conflict.
Qed.

Lemma castVote_once_per_user_witness :
  castVote (js "poll-1") (js "opt-1-4") (js "user-42")
    (perform_all
       [ CallCreatePoll (js "Lunch?") [js "Pizza"; js "Tacos"]
           (js "user-7") noon;
         CallCastVote (js "poll-2") (js "opt-2-1") (js "user-42");
         CallSignOut ] voted)
  = (Throw ConflictError_voted,
     perform_all
       [ CallCreatePoll (js "Lunch?") [js "Pizza"; js "Tacos"]
           (js "user-7") noon;
         CallCastVote (js "poll-2") (js "opt-2-1") (js "user-42");
         CallSignOut ] voted).
Proof.
  apply (castVote_once_per_user (js "poll-1") (js "opt-1-2") (js "opt-1-4")
           (js "user-42") seeded votedPoll1 voted).
  vm_compute. reflexivity.
Defined.

(** ** The poll form *)

Lemma filter_with_index_remove {A} (l : list A) target k :
  filter_with_index (λ _ i, negb (i =? target)%nat) l k
  = if decide (k ≤ target)%nat then delete (target - k)%nat l else l.
Proof.
  revert k. induction l as [|x l IH]; intros k; simpl.
  - by destruct (decide _).
  - rewrite IH. destruct (k =? target)%nat eqn:Hk; simpl.
    + apply Nat.eqb_eq in Hk as ->.
      rewrite decide_False, decide_True, Nat.sub_diag by lia. done.
    + apply Nat.eqb_neq in Hk.
      destruct (decide (k ≤ target)%nat) as [Hle|Hgt].
      * rewrite decide_True by lia.
        replace (target - k)%nat with (S (target - S k)) by lia. done.
      * by rewrite decide_False by lia.
Qed.

Lemma delete_past_end {A} (l : list A) i :
  (length l ≤ i)%nat → delete i l = l.
Proof.
  intros Hi. rewrite delete_take_drop, take_ge, drop_ge by lia.
  apply app_nil_r.
Qed.

Lemma removeOption_options index s :
  CreatePollForm.options (CreatePollForm.removeOption index s)
  = if decide (2 < length (CreatePollForm.options s))%nat
    then delete index (CreatePollForm.options s)
    else CreatePollForm.options s.
Proof.
  unfold CreatePollForm.removeOption.
  destruct (2 <? _)%nat eqn:Hlen.
  - apply Nat.ltb_lt in Hlen. rewrite decide_True by done.
    cbn [CreatePollForm.setOptions CreatePollForm.options].
    rewrite filter_with_index_remove, decide_True, Nat.sub_0_r by lia. done.
  - apply Nat.ltb_ge in Hlen. by rewrite decide_False by lia.
Qed.

Lemma form_step_count s s' :
  CreatePollForm.step s s' →
  (2 ≤ length (CreatePollForm.options s) ≤ 10)%nat →
  (2 ≤ length (CreatePollForm.options s') ≤ 10)%nat.
Proof.
  intros Hstep Hcount.
  destruct Hstep as [s value | s index value Hindex | s | s index].
  - done.
  - cbn [CreatePollForm.setOptions CreatePollForm.options].
    by rewrite length_insert.
  - unfold CreatePollForm.addOption.
    destruct (_ <? 10)%nat eqn:Hlen; [|done].
    apply Nat.ltb_lt in Hlen.
    cbn [CreatePollForm.setOptions CreatePollForm.options].
    rewrite length_app. simpl. lia.
  - rewrite removeOption_options.
    destruct (decide _) as [Hlen|]; [|done].
    destruct (decide (index < length (CreatePollForm.options s))%nat)
      as [Hin|Hout].
    + rewrite length_delete by (by apply lookup_lt_is_Some_2). lia.
    + rewrite delete_past_end by lia. lia.
Qed.

(** X12. Whatever the user does in the poll form (typing the question or an
    option, adding options, removing options), the form holds at least 2 and
    at most 10 option fields. *)
Theorem form_option_count s :
  CreatePollForm.reachable s →
  (2 ≤ length (CreatePollForm.options s) ≤ 10)%nat.
Proof.
  induction 1 as [|s s' _ IH Hstep]; [simpl; lia|].
  by apply (form_step_count s s').
Qed.

Lemma form_option_count_witness :
  (2 ≤ length (CreatePollForm.options
                 (CreatePollForm.removeOption 0
                    (CreatePollForm.addOption CreatePollForm.initial))) ≤ 10)%nat.
Proof.
  apply form_option_count.
  apply (CreatePollForm.reachable_step
           (CreatePollForm.addOption CreatePollForm.initial));
    [|apply CreatePollForm.step_removeOption].
  apply (CreatePollForm.reachable_step CreatePollForm.initial);
    [apply CreatePollForm.reachable_initial | apply CreatePollForm.step_addOption].
Defined.

(** X13. [removeOption(index)] with more than two options removes exactly the
    option at [index] and keeps the others in order (nothing, when [index] is
    past the end); with two options or fewer it changes nothing.  [addOption]
    appends one empty option below ten options and changes nothing at ten.
    Neither touches the question. *)
Theorem form_add_remove index s :
  CreatePollForm.options (CreatePollForm.removeOption index s)
  = (if decide (2 < length (CreatePollForm.options s))%nat
     then delete index (CreatePollForm.options s)
     else CreatePollForm.options s)
  ∧ CreatePollForm.options (CreatePollForm.addOption s)
    = (if decide (length (CreatePollForm.options s) < 10)%nat
       then CreatePollForm.options s ++ [[]]
       else CreatePollForm.options s)
  ∧ CreatePollForm.question (CreatePollForm.removeOption index s)
    = CreatePollForm.question s
  ∧ CreatePollForm.question (CreatePollForm.addOption s)
    = CreatePollForm.question s.
Proof.
  split; [apply removeOption_options|].
  unfold CreatePollForm.removeOption, CreatePollForm.addOption.
  destruct (_ <? 10)%nat eqn:Hadd; destruct (2 <? _)%nat;
    [apply Nat.ltb_lt in Hadd | apply Nat.ltb_lt in Hadd
     | apply Nat.ltb_ge in Hadd | apply Nat.ltb_ge in Hadd];
    (rewrite ?decide_True, ?decide_False by lia); done.
Qed.

(** ** The dashboard *)

Lemma validOptions_trimmed options :
  Forall (λ t, trim t = t ∧ t ≠ []) (validOptions options).
Proof.
  apply Forall_forall. intros t. unfold validOptions.
  rewrite list_elem_of_filter, list_elem_of_fmap, truthy_true.
  intros (Hne & raw & -> & _). split; [apply trim_idempotent | done].
Qed.

Lemma fetchPolls_shows d ls :
  shows_storage (fst (Dashboard.fetchPolls d ls))
    (snd (Dashboard.fetchPolls d ls))
  ∧ snd (Dashboard.fetchPolls d ls) = ls
  ∧ Dashboard.isCreatingPoll (fst (Dashboard.fetchPolls d ls))
    = Dashboard.isCreatingPoll d.
Proof.
  unfold Dashboard.fetchPolls, shows_storage. rewrite getPolls_run.
  simpl. by rewrite reverse_involutive.
Qed.

(** X14. Submitting the poll form: the form shows no error exactly when a
    user is signed in, the question is non-empty after trimming and at least
    two option fields are non-empty after trimming.  Then the collection has
    gained one poll whose option texts are the trimmed non-empty fields in
    order, the dashboard lists that poll first, above the earlier polls
    newest first, and has left the creation view.  Otherwise the form shows
    an error and the dashboard and the storage are untouched. *)
Theorem form_submit_outcome user now s d ls polls :
  getPolls ls = (Ok polls, ls) →
  let out :=
    CreatePollForm.handleSubmit (Dashboard.handleCreatePoll user now) s (d, ls)
  in
  let valid := validOptions (CreatePollForm.options s) in
  (CreatePollForm.error (fst out) = None ↔
   user ≠ None ∧ trim (CreatePollForm.question s) ≠ []
   ∧ (2 ≤ length valid)%nat)
  ∧ (CreatePollForm.error (fst out) = None →
     ∃ poll,
       getPolls (snd (snd out)) = (Ok (polls ++ [poll]), snd (snd out))
       ∧ PollOption.text <$> Poll.options poll = valid
       ∧ Forall (λ t, trim t = t ∧ t ≠ []) valid
       ∧ Dashboard.polls (fst (snd out)) = poll :: reverse polls
       ∧ Dashboard.isCreatingPoll (fst (snd out)) = false)
  ∧ (CreatePollForm.error (fst out) ≠ None → snd out = (d, ls)).
Proof.
  intros [_ ->]%getPolls_inv out valid. subst out.
  unfold CreatePollForm.handleSubmit, Dashboard.handleCreatePoll.
  fold valid. cbn [fst snd].
  destruct user as [u|].
  2:{ simpl. split; [|split]; [split; [discriminate|] | discriminate | done].
      by intros [? _]. }
  destruct (decide (trim (CreatePollForm.question s) ≠ []
                    ∧ (2 ≤ length valid)%nat)) as [[Hq Hlen]|Hbad].
  - rewrite (createPoll_accepts _ valid (User.id u) now ls Hq Hlen
               (validOptions_nonblank _)).
    pose proof (fetchPolls_shows
      (Dashboard.mk (Dashboard.polls d) (Dashboard.isLoading d)
         (Dashboard.error d) false)
      (mkStorage
         (Some (match polly_polls ls with Some ps => ps | None => [] end
                ++ [newPoll (CreatePollForm.question s) valid (User.id u) now]))
         (polly_current_user ls))) as (_ & _ & Hcreating).
    unfold Dashboard.fetchPolls in *. rewrite getPolls_run in *.
    cbn [fst snd polly_polls CreatePollForm.error Dashboard.polls
         Dashboard.isCreatingPoll] in *.
    split; [split; [done|by intros _]|]. split; [|done].
    intros _. eexists. split; [reflexivity|].
    split; [apply newPoll_texts|]. split; [apply validOptions_trimmed|].
    split; [apply reverse_snoc | done].
  - rewrite createPoll_rejects.
    + simpl. split; [|split]; [split; [discriminate|] | discriminate | done].
      intros (_ & Hq & Hlen). by destruct Hbad.
    + destruct (decide (trim (CreatePollForm.question s) = [])); [by left|].
      right; left. apply Nat.nlt_ge. intros Hlen. apply Hbad. split; [done|].
      lia.
Qed.

Lemma form_submit_outcome_witness :
  let out :=
    CreatePollForm.handleSubmit (Dashboard.handleCreatePoll (Some user42) noon)
      (CreatePollForm.mk (js "Lunch?")
         [js "Pizza"; js ""; js " Tacos"; js "  "] false None)
      (Dashboard.initial, seeded)
  in
  ∃ poll,
    getPolls (snd (snd out)) = (Ok (initialPolls ++ [poll]), snd (snd out))
    ∧ PollOption.text <$> Poll.options poll = [js "Pizza"; js "Tacos"]
    ∧ Dashboard.polls (fst (snd out)) = poll :: reverse initialPolls.
Proof.
  pose proof (form_submit_outcome (Some user42) noon
    (CreatePollForm.mk (js "Lunch?")
       [js "Pizza"; js ""; js " Tacos"; js "  "] false None)
    Dashboard.initial seeded initialPolls eq_refl) as (Hiff & Hok & _).
  destruct Hok as (poll & H1 & H2 & _ & H3 & _).
  - apply Hiff. split; [discriminate|].
    split; [vm_compute; discriminate | vm_compute; lia].
  - exists poll. split; [exact H1|]. split; [exact H2 | exact H3].
Defined.

Lemma castVote_Throw_inv pollId optionId userId ls e ls' :
  castVote pollId optionId userId ls = (Throw e, ls') →
  ls' = ls
  ∧ e ∈ [NotFoundError_poll; ConflictError_voted; ValidationError_option].
Proof.
  unfold castVote. run. rewrite !elem_of_cons.
  destruct (list_find _ _) as [[i poll]|]; [|intros [= <- <-]; auto].
  destruct (bool_decide _); [intros [= <- <-]; auto|].
  destruct (list_find _ (Poll.options poll)) as [[j o]|];
    [discriminate | intros [= <- <-]; auto].
Qed.

Lemma createPoll_Throw_inv question options userId now ls e ls' :
  createPoll question options userId now ls = (Throw e, ls') →
  ls' = ls ∧ e = ValidationError_poll.
Proof.
  unfold createPoll. destruct (_ || _ || _); [|discriminate].
  by intros [= <- <-].
Qed.

(** X15. The dashboard never shows stale polls.  When [handleVote] or
    [handleCreatePoll] returns, and after every [fetchPolls], the list of the
    dashboard is the stored collection newest first, with no error and the
    loading flag off; when a handler throws, which it does without a
    signed-in user, neither the dashboard state nor the storage has
    changed. *)
Theorem dashboard_shows_storage user now d ls :
  (∀ pollId optionId,
     match Dashboard.handleVote user pollId optionId (d, ls) with
     | (Ok _, (d', ls')) => shows_storage d' ls'
     | (Throw _, w') => w' = (d, ls)
     end)
  ∧ (∀ question options,
       match Dashboard.handleCreatePoll user now question options (d, ls) with
       | (Ok _, (d', ls')) =>
           shows_storage d' ls' ∧ Dashboard.isCreatingPoll d' = false
       | (Throw _, w') => w' = (d, ls)
       end)
  ∧ shows_storage (fst (Dashboard.fetchPolls d ls))
      (snd (Dashboard.fetchPolls d ls))
  ∧ (user = None →
     ∀ pollId optionId question options,
       fst (Dashboard.handleVote user pollId optionId (d, ls))
       = Throw (mkError (js "You must be logged in to vote."))
       ∧ fst (Dashboard.handleCreatePoll user now question options (d, ls))
         = Throw (mkError (js "You must be logged in to create a poll."))).
Proof.
  split; [|split; [|split]].
  - intros pollId optionId. unfold Dashboard.handleVote.
    destruct user as [u|]; [|done]. cbn [fst snd].
    destruct (castVote _ _ _ ls) as [[voted'|e] ls'] eqn:Hvote.
    + pose proof (fetchPolls_shows d ls') as (Hshows & _).
      by destruct (Dashboard.fetchPolls d ls').
    + by apply castVote_Throw_inv in Hvote as [-> _].
  - intros question options. unfold Dashboard.handleCreatePoll.
    destruct user as [u|]; [|done]. cbn [fst snd].
    destruct (createPoll _ _ _ _ ls) as [[created|e] ls'] eqn:Hcreate.
    + match goal with
      | |- context [Dashboard.fetchPolls ?d0 ls'] =>
          pose proof (fetchPolls_shows d0 ls') as (Hshows & _ & Hcreating);
          by destruct (Dashboard.fetchPolls d0 ls')
      end.
    + by apply createPoll_Throw_inv in Hcreate as [-> _].
  - apply fetchPolls_shows.
  - by intros ->.
Qed.

(** X16. Voting from a card.  For the stored poll that the id of the card's
    poll names, which is the first poll of the collection with that id (every
    stored poll where the ids are pairwise distinct), and which the signed-in
    user has not voted on, clicking one of its options (whose id is not the
    empty string) and then Vote leaves the card without error; the poll is
    stored with one vote more in total and the user in its [votedBy], so its
    card now counts the user as having voted, and the dashboard shows the
    storage. *)
Theorem card_vote_marks_voted u poll option d ls polls i :
  getPolls ls = (Ok polls, ls) →
  found_at (λ p, Poll.id p = Poll.id poll) polls i poll →
  User.id u ∉ Poll.votedBy poll →
  option ∈ Poll.options poll →
  PollOption.id option ≠ [] →
  let card := PollCard.selectOption (Some u) poll option PollCard.initial in
  let out :=
    PollCard.handleVote (Some u) poll (Dashboard.handleVote (Some u)) card
      (d, ls)
  in
  PollCard.error (fst out) = None
  ∧ shows_storage (fst (snd out)) (snd (snd out))
  ∧ ∃ poll',
      Dashboard.polls (fst (snd out)) = reverse (<[i := poll']> polls)
      ∧ Poll.id poll' = Poll.id poll
      ∧ totalVotes poll' = totalVotes poll + 1
      ∧ PollCard.userHasVoted (Some u) poll' = true.
Proof.
  intros Hpolls Hfound Hnew Hoption Hid card out.
  assert (Hnamed : PollOption.id option ∈ PollOption.id <$> Poll.options poll).
  { apply list_elem_of_fmap. eauto. }
  destruct (named_option_found _ _ Hnamed) as (j & o & Hopt).
  pose proof (castVote_commit _ _ _ _ _ _ _ _ _ Hpolls Hfound Hnew Hopt)
    as Hvote.
  subst out card. unfold PollCard.selectOption, PollCard.userHasVoted.
  rewrite bool_decide_eq_false_2 by done.
  unfold PollCard.handleVote. cbn [PollCard.selectedOption].
  rewrite (proj2 (truthy_true _) Hid).
  unfold Dashboard.handleVote. cbn [fst snd]. rewrite Hvote.
  match goal with
  | |- context [Dashboard.fetchPolls d ?ls'] =>
      pose proof (fetchPolls_shows d ls') as (Hshows & _);
      unfold Dashboard.fetchPolls in *; rewrite getPolls_run in *
  end.
  cbn [fst snd polly_polls PollCard.error Dashboard.polls] in *.
  split; [done|]. split; [exact Hshows|].
  exists (recordVote j (User.id u) poll).
  split; [done|]. split; [done|].
  split; [eapply totalVotes_recordVote, Hopt|].
  cbn [recordVote Poll.votedBy]. apply bool_decide_eq_true_2.
  apply elem_of_app. right. by left.
Qed.

Lemma card_vote_marks_voted_witness :
  let card :=
    PollCard.selectOption (Some user42) seededPoll1
      (PollOption.mk (js "opt-1-2") (js "Vue") 8) PollCard.initial in
  let out :=
    PollCard.handleVote (Some user42) seededPoll1
      (Dashboard.handleVote (Some user42)) card (Dashboard.initial, seeded)
  in
  PollCard.error (fst out) = None
  ∧ shows_storage (fst (snd out)) (snd (snd out))
  ∧ ∃ poll',
      Dashboard.polls (fst (snd out)) = reverse (<[0%nat := poll']> initialPolls)
      ∧ Poll.id poll' = Poll.id seededPoll1
      ∧ totalVotes poll' = totalVotes seededPoll1 + 1
      ∧ PollCard.userHasVoted (Some user42) poll' = true.
Proof.
  apply (card_vote_marks_voted user42 seededPoll1
           (PollOption.mk (js "opt-1-2") (js "Vue") 8)
           Dashboard.initial seeded initialPolls 0).
  - reflexivity.
  - apply (proj1 (list_find_Some _ _ _ _)). vm_compute. reflexivity.
  - apply not_elem_of_nil.
  - apply (list_elem_of_lookup_2 _ 1%nat). reflexivity.
  - vm_compute. discriminate.
Defined.

(** X17. What a card does not do.  Without a selected option, with the
    empty string selected, or without a signed-in user, Vote does nothing at
    all.  A vote the service rejects changes neither the dashboard nor the
    storage, and the card shows the message of the service's error.  An
    option clicked on a poll the user has voted on is not selected. *)
Theorem card_vote_guards user poll s d ls :
  let out :=
    PollCard.handleVote user poll (Dashboard.handleVote user) s (d, ls) in
  (PollCard.selectedOption s = None ∨ PollCard.selectedOption s = Some []
   ∨ user = None → out = (s, (d, ls)))
  ∧ (∀ u selected e,
       user = Some u → PollCard.selectedOption s = Some selected →
       selected ≠ [] →
       fst (castVote (Poll.id poll) selected (User.id u) ls) = Throw e →
       PollCard.error (fst out) = Some (message e) ∧ snd out = (d, ls))
  ∧ (∀ option, PollCard.userHasVoted user poll = true →
       PollCard.selectOption user poll option s = s).
Proof.
  intros out. subst out. split; [|split].
  - unfold PollCard.handleVote.
    intros [-> | [-> | ->]]; [done | by destruct user |].
    by destruct (PollCard.selectedOption s).
  - intros u selected e -> Hsel Hne Hthrow.
    unfold PollCard.handleVote. rewrite Hsel, (proj2 (truthy_true _) Hne).
    unfold Dashboard.handleVote. cbn [fst snd].
    destruct (castVote _ _ _ ls) as [[voted'|e'] ls'] eqn:Hvote;
      [discriminate|].
    simpl in Hthrow. injection Hthrow as ->.
    apply castVote_Throw_inv in Hvote as [-> He].
    cbn [fst snd PollCard.error]. split; [|done]. f_equal.
    rewrite !elem_of_cons, elem_of_nil in He.
    destruct He as [-> | [-> | [-> | []]]]; reflexivity.
  - intros option Hvoted. unfold PollCard.selectOption. by rewrite Hvoted.
Qed.

Lemma card_vote_guards_witness :
  let out :=
    PollCard.handleVote (Some user42) seededPoll1
      (Dashboard.handleVote (Some user42))
      (PollCard.mk (Some (js "opt-1-4")) false None) (Dashboard.initial, voted)
  in
  PollCard.error (fst out) = Some (js "You have already voted on this poll.")
  ∧ snd out = (Dashboard.initial, voted).
Proof.
  pose proof (card_vote_guards (Some user42) seededPoll1
    (PollCard.mk (Some (js "opt-1-4")) false None) Dashboard.initial voted)
    as (_ & Hreject & _).
  apply (Hreject user42 (js "opt-1-4") ConflictError_voted);
    [reflexivity | reflexivity | vm_compute; discriminate
     | vm_compute; reflexivity].
Defined.

(** ** Authentication state *)

(** X18. The user held by [App] is the session record of the storage: the
    mount effect makes it so, and a sign-in (returning or throwing), a
    sign-out and a login through the login view keep it so. *)
Theorem app_user_tracks_session uname now s a ls :
  App.user (App.checkCurrentUser a ls) = getCurrentUser ls
  ∧ (App.user a = getCurrentUser ls →
     (let w := snd (App.handleSignIn uname now (a, ls)) in
      App.user (fst w) = getCurrentUser (snd w))
     ∧ (let w := snd (App.handleSignOut (a, ls)) in
        App.user (fst w) = None ∧ getCurrentUser (snd w) = None)
     ∧ (let w := snd (Login.handleLogin now s (a, ls)) in
        App.user (fst w) = getCurrentUser (snd w))).
Proof.
  split; [done|]. intros Hsync. split; [|split; [done|]].
  - unfold App.handleSignIn, signIn. cbn [fst snd].
    by destruct (_ || _).
  - unfold Login.handleLogin, App.handleSignIn, signIn. cbn [fst snd].
    by destruct (_ || _).
Qed.

Lemma app_user_tracks_session_witness :
  let w := snd (Login.handleLogin noon (Login.mk (js " ada ") false None)
                  (App.initial, seeded)) in
  App.user (fst w) = getCurrentUser (snd w).
Proof.
  pose proof (app_user_tracks_session (js " ada ") noon
    (Login.mk (js " ada ") false None) App.initial seeded) as (_ & Hkeep).
  apply Hkeep. reflexivity.
Defined.

(** X19. Logging in from the login view.  With a username shorter than 3
    code units after trimming the view shows the service's message and
    nothing else changes: the user stays signed out or in as before and the
    login view stays.  With a longer one the view shows no error, the
    application switches to the dashboard and holds the new user, whose
    username is the trimmed input and who is the session record. *)
Theorem login_outcome now s a ls :
  let out := Login.handleLogin now s (a, ls) in
  ((length (trim (Login.username s)) < 3)%nat →
   Login.error (fst out)
   = Some (js "Username must be at least 3 characters long.")
   ∧ snd out = (a, ls))
  ∧ ((3 ≤ length (trim (Login.username s)))%nat →
     Login.error (fst out) = None
     ∧ App.view (fst (snd out)) = AppView.Dashboard
     ∧ ∃ u, App.user (fst (snd out)) = Some u
            ∧ User.username u = trim (Login.username s)
            ∧ getCurrentUser (snd (snd out)) = Some u).
Proof.
  intros out. subst out.
  unfold Login.handleLogin, App.handleSignIn, signIn. cbn [fst snd].
  destruct (negb _ || _) eqn:Hguard.
  - apply signIn_guard in Hguard. split; [by intros _ | intros Hlong; lia].
  - apply not_true_iff_false in Hguard. rewrite signIn_guard in Hguard.
    split; [intros Hshort; lia|]. intros _. run.
    split; [done|]. split; [done|]. eexists. done.
Qed.

Lemma login_outcome_witness :
  let out := Login.handleLogin noon (Login.mk (js " al ") false None)
               (App.mk None false AppView.Login, seeded) in
  Login.error (fst out)
  = Some (js "Username must be at least 3 characters long.")
  ∧ snd out = (App.mk None false AppView.Login, seeded).
Proof.
  pose proof (login_outcome noon (Login.mk (js " al ") false None)
                (App.mk None false AppView.Login) seeded) as (Hshort & _).
  apply Hshort. vm_compute. lia.
Defined.

Example trim_example : trim (js "  Pizza ") = js "Pizza".
Proof. reflexivity. Qed.

Example ofNumber_example : ofNumber 1700000000000 = js "1700000000000".
Proof. reflexivity. Qed.

Example castVote_scenario :
  fst (castVote (js "poll-1") (js "opt-1-2") (js "user-42") seeded) =
  Ok (Poll.mk (js "poll-1") (js "What is your favorite frontend framework?")
      [ PollOption.mk (js "opt-1-1") (js "React") 15;
        PollOption.mk (js "opt-1-2") (js "Vue") 9;
        PollOption.mk (js "opt-1-3") (js "Svelte") 12;
        PollOption.mk (js "opt-1-4") (js "Angular") 3 ]
      (js "user-1") [js "user-42"]).
Proof. vm_compute. reflexivity. Qed.

Example castVote_repeat_scenario :
  castVote (js "poll-1") (js "opt-1-2") (js "user-42") voted
  = (Throw ConflictError_voted, voted).
Proof. vm_compute. reflexivity. Qed.

Example createPoll_single_option_scenario :
  createPoll (js "Lunch?") [js "OnlyOne"] (js "user-7") noon seeded
  = (Throw ValidationError_poll, seeded).
Proof. vm_compute. reflexivity. Qed.

Example signOut_clears_session ls : getCurrentUser (snd (signOut ls)) = None.
Proof. reflexivity. Qed.
